(** * A shallow embedding of the cloud-copilot/log structured logger

    The development follows [src/src/log.ts] (the current logger) and
    [src/unnamed/part_001] (an earlier revision of the same file whose
    [logAt] attaches errors differently).

    Layout:
    - the host: JavaScript values, the coercions and built-ins the logger
      calls ([typeof], [String], [in], property reads, [Object.assign],
      [Array.prototype.join], [JSON.stringify], [JSON.parse],
      [Date.prototype.toISOString]);
    - the program: [LEVELS], [isLogLevel], [StandardLogger],
      [serializeArgs], [isError], [mapError], [logAt];
    - the program once more, in the module [Full], with the coercions
      that raise;
    - the properties.

    The value universe is [undefined], [null], booleans, integer-valued
    and non-finite numbers, strings, arrays, and ordinary objects with
    data properties whose prototype is either [Object.prototype] or an
    [Error] prototype.  Functions, symbols, bigints, accessors, proxies
    and cyclic structures are outside the universe.

    The program is embedded twice.  The first embedding takes the host
    where it cannot raise: [ToString] is [String] on values whose objects
    inherit [toString], [Object_assign] assigns keys other than
    [__proto__], and an integer is written with all its decimal digits
    (as the host does below 10^21).  The second embedding, [Full], has
    the [TypeError] of coercing an object that owns a [toString]
    property, the prototype setter behind the key [__proto__], and the
    text of a number as a parameter.  The last section shows that the two
    agree on plain data. *)

From Stdlib Require Import ZArith List String Ascii Bool Lia Permutation.
From Stdlib Require Import Decimal DecimalString DecimalZ DecimalNat.
Import ListNotations.
Local Open Scope list_scope.
Local Open Scope string_scope.

(* ================================================================== *)
(** * The host: values *)
(* ================================================================== *)

(** A JavaScript number, as far as the logger can tell numbers apart: an
    integer, or one of the three non-finite values.  (The integers that
    are numbers of the host are those a double holds; numbers with a
    fraction are not modelled.) *)
Inductive number : Type :=
| Int (z : Z)
| NaN
| PosInfinity
| NegInfinity.

(** The prototype of an ordinary object.  [ErrorPrototype n] stands for a
    chain through [Error.prototype] whose inherited [name] is [n] (and
    whose inherited [message] is the empty string). *)
Inductive prototype : Type :=
| ObjectPrototype
| ErrorPrototype (name : string).

(** A property of an object: key, enumerable flag, value. *)
Definition property (V : Type) : Type := (string * (bool * V))%type.

Definition pkey {V} (p : property V) : string := fst p.
Definition penumerable {V} (p : property V) : bool := fst (snd p).
Definition pvalue {V} (p : property V) : V := snd (snd p).

Unset Elimination Schemes.
Inductive value : Type :=
| VUndefined
| VNull
| VBool (b : bool)
| VNum (n : number)
| VStr (s : string)
| VArr (elems : list value)
| VObj (proto : prototype) (props : list (property value)).
Set Elimination Schemes.

(** Induction over values, through arrays and property lists. *)
Definition value_ind (P : value -> Prop)
    (Hundef : P VUndefined) (Hnull : P VNull)
    (Hbool : forall b, P (VBool b)) (Hnum : forall n, P (VNum n))
    (Hstr : forall s, P (VStr s))
    (Harr : forall elems, Forall P elems -> P (VArr elems))
    (Hobj : forall proto props,
        Forall (fun p => P (pvalue p)) props -> P (VObj proto props)) :
  forall v, P v :=
  fix go (v : value) : P v :=
    match v with
    | VUndefined => Hundef
    | VNull => Hnull
    | VBool b => Hbool b
    | VNum n => Hnum n
    | VStr s => Hstr s
    | VArr elems =>
        Harr elems
          ((fix all (l : list value) : Forall P l :=
              match l with
              | [] => Forall_nil _
              | x :: t => Forall_cons x (go x) (all t)
              end) elems)
    | VObj proto props =>
        Hobj proto props
          ((fix all (l : list (property value))
              : Forall (fun p => P (pvalue p)) l :=
              match l with
              | [] => Forall_nil _
              | p :: t =>
                  @Forall_cons _ (fun p => P (pvalue p)) p t
                    (go (pvalue p)) (all t)
              end) props)
    end.

(** An object literal [{k1: v1, ...}]: every property enumerable. *)
Definition literal (fields : list (string * value)) : list (property value) :=
  map (fun kv => (fst kv, (true, snd kv))) fields.

Definition VObject (fields : list (string * value)) : value :=
  VObj ObjectPrototype (literal fields).

(** [new Error(message)] as the host builds it: [message] and [stack] are
    own, non-enumerable properties. *)
Definition newError (message stack : string) : value :=
  VObj (ErrorPrototype "Error")
       [("stack", (false, VStr stack)); ("message", (false, VStr message))].

(* ------------------------------------------------------------------ *)
(** ** Association lists

    A list of bindings denotes the object obtained by performing the
    writes in order, so a lookup returns the last binding of the key. *)

Fixpoint lookup {V} (k : string) (l : list (string * V)) : option V :=
  match l with
  | [] => None
  | (k', v) :: t =>
      match lookup k t with
      | Some x => Some x
      | None => if String.eqb k' k then Some v else None
      end
  end.

(** [o[k] = v] on an object whose keys are distinct: an existing key keeps
    its position, a new key goes last. *)
Fixpoint set {V} (k : string) (v : V) (o : list (string * V))
  : list (string * V) :=
  match o with
  | [] => [(k, v)]
  | (k', v') :: t =>
      if String.eqb k' k then (k, v) :: t else (k', v') :: set k v t
  end.

Definition keys {V} (l : list (string * V)) : list string := map fst l.

(* ------------------------------------------------------------------ *)
(** ** [typeof], truthiness, number rendering *)

Inductive typeTag : Type :=
| TUndefined | TObject | TBoolean | TNumber | TString.

Definition typeof (v : value) : typeTag :=
  match v with
  | VUndefined => TUndefined
  | VNull => TObject
  | VBool _ => TBoolean
  | VNum _ => TNumber
  | VStr _ => TString
  | VArr _ => TObject
  | VObj _ _ => TObject
  end.

Definition typeTag_eqb (a b : typeTag) : bool :=
  match a, b with
  | TUndefined, TUndefined | TObject, TObject | TBoolean, TBoolean
  | TNumber, TNumber | TString, TString => true
  | _, _ => false
  end.

Definition isNull (v : value) : bool :=
  match v with VNull => true | _ => false end.

Definition isUndefined (v : value) : bool :=
  match v with VUndefined => true | _ => false end.

Definition isNullish (v : value) : bool := isNull v || isUndefined v.

(** ToBoolean. *)
Definition truthy (v : value) : bool :=
  match v with
  | VUndefined | VNull => false
  | VBool b => b
  | VNum (Int z) => negb (Z.eqb z 0)
  | VNum NaN => false
  | VNum _ => true
  | VStr s => negb (String.eqb s "")
  | VArr _ | VObj _ _ => true
  end.

(** Decimal rendering of an integer, as [Number::toString] gives it below
    10^21 (from there on the host writes an exponent). *)
Definition Z_to_string (z : Z) : string :=
  NilZero.string_of_int (Z.to_int z).

Definition nat_to_string (n : nat) : string :=
  NilZero.string_of_uint (Nat.to_uint n).

Definition number_to_string (n : number) : string :=
  match n with
  | Int z => Z_to_string z
  | NaN => "NaN"
  | PosInfinity => "Infinity"
  | NegInfinity => "-Infinity"
  end.

(* ------------------------------------------------------------------ *)
(** ** Property access *)

Definition instanceofError (v : value) : bool :=
  match v with
  | VObj (ErrorPrototype _) _ => true
  | _ => false
  end.

(** What the prototype chain supplies for a key that is not an own
    property.  Only [name] and [message] of the [Error] prototypes are
    data; the logger reads no other inherited property. *)
Definition protoGet (p : prototype) (k : string) : value :=
  match p with
  | ObjectPrototype => VUndefined
  | ErrorPrototype n =>
      if String.eqb k "name" then VStr n
      else if String.eqb k "message" then VStr ""
      else VUndefined
  end.

Definition protoHas (p : prototype) (k : string) : bool :=
  match p with
  | ObjectPrototype => false
  | ErrorPrototype _ => String.eqb k "name" || String.eqb k "message"
  end.

(** The elements of an array as properties ["0"], ["1"], ... *)
Fixpoint indexed {V} (i : nat) (l : list V) : list (string * V) :=
  match l with
  | [] => []
  | x :: t => (nat_to_string i, x) :: indexed (S i) t
  end.

Definition ownProps (props : list (property value)) : list (string * value) :=
  map (fun p => (pkey p, pvalue p)) props.

(** [v[k]]: [None] is the [TypeError] of reading a property of
    [undefined] or [null]. *)
Definition Get (v : value) (k : string) : option value :=
  match v with
  | VUndefined | VNull => None
  | VBool _ | VNum _ | VStr _ => Some VUndefined
  | VArr elems =>
      Some (match lookup k (indexed 0 elems) with
            | Some x => x
            | None => VUndefined
            end)
  | VObj proto props =>
      Some (match lookup k (ownProps props) with
            | Some x => x
            | None => protoGet proto k
            end)
  end.

(** [k in v], for an object [v]. *)
Definition HasProperty (v : value) (k : string) : bool :=
  match v with
  | VArr elems =>
      match lookup k (indexed 0 elems) with Some _ => true | None => false end
  | VObj proto props =>
      match lookup k (ownProps props) with
      | Some _ => true
      | None => protoHas proto k
      end
  | _ => false
  end.

(** The own enumerable string-keyed properties, in order: what
    [Object.assign] copies and [JSON.stringify] serializes. *)
Definition ownEnumerable (v : value) : list (string * value) :=
  match v with
  | VArr elems => indexed 0 elems
  | VObj _ props =>
      map (fun p => (pkey p, pvalue p)) (filter (fun p => penumerable p) props)
  | _ => []
  end.

(** [Object.assign(target, source)] on a target with distinct keys, for
    a source without a [__proto__] property ([Full.Object_assign] has the
    setter that key runs into). *)
Definition Object_assign (target : list (string * value)) (source : value)
  : list (string * value) :=
  fold_left (fun o kv => set (fst kv) (snd kv) o) (ownEnumerable source) target.

(* ------------------------------------------------------------------ *)
(** ** [String(v)] and [Array.prototype.join] *)

Definition errorToString (name message : option string) : string :=
  let n := match name with Some s => s | None => "Error" end in
  let m := match message with Some s => s | None => "" end in
  if String.eqb n "" then m
  else if String.eqb m "" then n
  else n ++ ": " ++ m.

(** ToString, on values whose objects inherit [toString] (on an object
    that owns a [toString] property the host raises: [Full.ToString]).
    An array joins its elements with a comma, [undefined] and [null]
    elements giving the empty string; an ordinary object gives
    ["[object Object]"]; an error gives [name: message] after
    [Error.prototype.toString]. *)
Fixpoint ToString (v : value) : string :=
  match v with
  | VUndefined => "undefined"
  | VNull => "null"
  | VBool true => "true"
  | VBool false => "false"
  | VNum n => number_to_string n
  | VStr s => s
  | VArr elems =>
      String.concat ","
        (map (fun e => if isNullish e then "" else ToString e) elems)
  | VObj ObjectPrototype _ => "[object Object]"
  | VObj (ErrorPrototype n) props =>
      let strs :=
        map (fun p => (pkey p,
                       if isUndefined (pvalue p) then None
                       else Some (ToString (pvalue p)))) props in
      errorToString
        (match lookup "name" strs with Some x => x | None => Some n end)
        (match lookup "message" strs with Some x => x | None => Some "" end)
  end.

(** [arr.join(sep)]. *)
Definition join (sep : string) (arr : list value) : string :=
  String.concat sep
    (map (fun e => if isNullish e then "" else ToString e) arr).

(* ================================================================== *)
(** * The host: JSON *)
(* ================================================================== *)

(** What a JSON text denotes. *)
Unset Elimination Schemes.
Inductive json : Type :=
| JNull
| JBool (b : bool)
| JNum (z : Z)
| JStr (s : string)
| JArr (elems : list json)
| JObj (members : list (string * json)).
Set Elimination Schemes.

Definition json_ind (P : json -> Prop)
    (Hnull : P JNull) (Hbool : forall b, P (JBool b))
    (Hnum : forall z, P (JNum z)) (Hstr : forall s, P (JStr s))
    (Harr : forall elems, Forall P elems -> P (JArr elems))
    (Hobj : forall members,
        Forall (fun m => P (snd m)) members -> P (JObj members)) :
  forall j, P j :=
  fix go (j : json) : P j :=
    match j with
    | JNull => Hnull
    | JBool b => Hbool b
    | JNum z => Hnum z
    | JStr s => Hstr s
    | JArr elems =>
        Harr elems
          ((fix all (l : list json) : Forall P l :=
              match l with
              | [] => Forall_nil _
              | x :: t => Forall_cons x (go x) (all t)
              end) elems)
    | JObj members =>
        Hobj members
          ((fix all (l : list (string * json))
              : Forall (fun m => P (snd m)) l :=
              match l with
              | [] => Forall_nil _
              | m :: t =>
                  @Forall_cons _ (fun m => P (snd m)) m t (go (snd m)) (all t)
              end) members)
    end.

(** SerializeJSONProperty, up to the text: [None] is the [undefined] that
    [JSON.stringify] returns for [undefined].  A non-finite number gives
    [null]; in an array an [undefined] element gives [null]; in an object
    only enumerable properties whose value serializes are kept.  Members
    keep the order of the property list (the host puts integer-like keys
    first; the properties below read members by key, never by
    position). *)
Fixpoint toJSON (v : value) : option json :=
  match v with
  | VUndefined => None
  | VNull => Some JNull
  | VBool b => Some (JBool b)
  | VNum (Int z) => Some (JNum z)
  | VNum _ => Some JNull
  | VStr s => Some (JStr s)
  | VArr elems =>
      Some (JArr (map (fun e => match toJSON e with
                                | Some j => j
                                | None => JNull
                                end) elems))
  | VObj _ props =>
      Some (JObj
        ((fix members (l : list (property value)) : list (string * json) :=
            match l with
            | [] => []
            | p :: t =>
                if penumerable p then
                  match toJSON (pvalue p) with
                  | Some j => (pkey p, j) :: members t
                  | None => members t
                  end
                else members t
            end) props))
  end.

(** The members of a serialized record whose properties are all
    enumerable (the log entry). *)
Fixpoint toMembers (o : list (string * value)) : list (string * json) :=
  match o with
  | [] => []
  | (k, v) :: t =>
      match toJSON v with
      | Some j => (k, j) :: toMembers t
      | None => toMembers t
      end
  end.

(** The double quote and the backslash. *)
Definition dquote : ascii := Eval cbv in ascii_of_nat 34.
Definition backslash : ascii := Eval cbv in ascii_of_nat 92.

Definition hexDigit (n : nat) : ascii :=
  nth n (list_ascii_of_string "0123456789abcdef") "0"%char.

(** QuoteJSONString, one character.  A string is its sequence of
    bytes; a byte from 128 up is part of a character that is copied as it
    is. *)
Definition escapeChar (c : ascii) : string :=
  let n := nat_of_ascii c in
  if Ascii.eqb c dquote then String backslash (String dquote "")
  else if Ascii.eqb c backslash then String backslash (String backslash "")
  else if Nat.eqb n 8 then String backslash "b"
  else if Nat.eqb n 12 then String backslash "f"
  else if Nat.eqb n 10 then String backslash "n"
  else if Nat.eqb n 13 then String backslash "r"
  else if Nat.eqb n 9 then String backslash "t"
  else if Nat.ltb n 32 then
    String backslash
      (String "u" (String "0" (String "0"
         (String (hexDigit (n / 16)) (String (hexDigit (n mod 16)) "")))))
  else String c "".

Fixpoint escape (s : string) : string :=
  match s with
  | EmptyString => ""
  | String c r => escapeChar c ++ escape r
  end.

Definition quote (s : string) : string :=
  String dquote (escape s ++ String dquote "").

(** The compact text of a JSON value. *)
Fixpoint render (j : json) : string :=
  match j with
  | JNull => "null"
  | JBool true => "true"
  | JBool false => "false"
  | JNum z => Z_to_string z
  | JStr s => quote s
  | JArr elems => "[" ++ String.concat "," (map render elems) ++ "]"
  | JObj members =>
      "{" ++ String.concat ","
               (map (fun m => quote (fst m) ++ ":" ++ render (snd m)) members)
          ++ "}"
  end.

(** [JSON.stringify(v)]; [None] is [undefined]. *)
Definition JSON_stringify (v : value) : option string :=
  option_map render (toJSON v).

(** [JSON.stringify] of a record with enumerable properties only. *)
Definition JSON_stringify_record (o : list (string * value)) : string :=
  render (JObj (toMembers o)).

(* ------------------------------------------------------------------ *)
(** ** [JSON.parse], for compact texts with integer numbers *)

Definition digitOf (c : ascii) : option (uint -> uint) :=
  match nat_of_ascii c - 48 with
  | 0 => if Nat.eqb (nat_of_ascii c) 48 then Some D0 else None
  | 1 => Some D1 | 2 => Some D2 | 3 => Some D3 | 4 => Some D4
  | 5 => Some D5 | 6 => Some D6 | 7 => Some D7 | 8 => Some D8
  | 9 => Some D9
  | _ => None
  end%nat.

Definition isDigit (c : ascii) : bool :=
  match digitOf c with Some _ => true | None => false end.

(** The longest prefix of digits. *)
Fixpoint parse_digits (s : string) : uint * string :=
  match s with
  | EmptyString => (Nil, "")
  | String c r =>
      match digitOf c with
      | Some d => let (u, r') := parse_digits r in (d u, r')
      | None => (Nil, s)
      end
  end.

Definition hexValue (c : ascii) : option nat :=
  let n := nat_of_ascii c in
  if (48 <=? n)%nat && (n <=? 57)%nat then Some (n - 48)%nat
  else if (97 <=? n)%nat && (n <=? 102)%nat then Some (n - 87)%nat
  else if (65 <=? n)%nat && (n <=? 70)%nat then Some (n - 55)%nat
  else None.

(** A simple escape [\c]. *)
Definition unescape (e : ascii) : option ascii :=
  if Ascii.eqb e dquote then Some dquote
  else if Ascii.eqb e backslash then Some backslash
  else if Ascii.eqb e "/" then Some "/"%char
  else if Ascii.eqb e "b" then Some (ascii_of_nat 8)
  else if Ascii.eqb e "f" then Some (ascii_of_nat 12)
  else if Ascii.eqb e "n" then Some (ascii_of_nat 10)
  else if Ascii.eqb e "r" then Some (ascii_of_nat 13)
  else if Ascii.eqb e "t" then Some (ascii_of_nat 9)
  else None.

(** The characters of a string literal after its opening quote, up to and
    including the closing quote.  An escape [\uXXXX] is accepted for code
    units below 256. *)
Fixpoint parse_chars (s : string) : option (string * string) :=
  match s with
  | EmptyString => None
  | String c r =>
      if Ascii.eqb c dquote then Some ("", r)
      else if Ascii.eqb c backslash then
        match r with
        | String e r1 =>
            if Ascii.eqb e "u" then
              match r1 with
              | String h1 (String h2 (String h3 (String h4 r2))) =>
                  match hexValue h1, hexValue h2, hexValue h3, hexValue h4 with
                  | Some 0%nat, Some 0%nat, Some a, Some b =>
                      match parse_chars r2 with
                      | Some (str, rest) =>
                          Some (String (ascii_of_nat (16 * a + b)) str, rest)
                      | None => None
                      end
                  | _, _, _, _ => None
                  end
              | _ => None
              end
            else
              match unescape e with
              | Some x =>
                  match parse_chars r1 with
                  | Some (str, rest) => Some (String x str, rest)
                  | None => None
                  end
              | None => None
              end
        | EmptyString => None
        end
      else if (nat_of_ascii c <? 32)%nat then None
      else
        match parse_chars r with
        | Some (str, rest) => Some (String c str, rest)
        | None => None
        end
  end.

(** The rest of a keyword. *)
Fixpoint expect {A} (word : string) (s : string) (a : A)
  : option (A * string) :=
  match word with
  | EmptyString => Some (a, s)
  | String w word' =>
      match s with
      | String c s' => if Ascii.eqb w c then expect word' s' a else None
      | EmptyString => None
      end
  end.

Definition parse_number (s : string) : option (json * string) :=
  match s with
  | String c r =>
      if Ascii.eqb c "-" then
        match parse_digits r with
        | (Nil, _) => None
        | (u, rest) => Some (JNum (Z.of_int (Neg u)), rest)
        end
      else
        match parse_digits s with
        | (Nil, _) => None
        | (u, rest) => Some (JNum (Z.of_int (Pos u)), rest)
        end
  | EmptyString => None
  end.

Fixpoint parse_value (fuel : nat) (s : string) : option (json * string) :=
  match fuel with
  | O => None
  | S fuel' =>
      match s with
      | EmptyString => None
      | String c r =>
          if Ascii.eqb c "n" then expect "ull" r JNull
          else if Ascii.eqb c "t" then expect "rue" r (JBool true)
          else if Ascii.eqb c "f" then expect "alse" r (JBool false)
          else if Ascii.eqb c dquote then
            match parse_chars r with
            | Some (str, rest) => Some (JStr str, rest)
            | None => None
            end
          else if Ascii.eqb c "[" then
            match r with
            | String c' r' =>
                if Ascii.eqb c' "]" then Some (JArr [], r')
                else
                  match parse_elems fuel' r with
                  | Some (l, rest) => Some (JArr l, rest)
                  | None => None
                  end
            | EmptyString => None
            end
          else if Ascii.eqb c "{" then
            match r with
            | String c' r' =>
                if Ascii.eqb c' "}" then Some (JObj [], r')
                else
                  match parse_members fuel' r with
                  | Some (l, rest) => Some (JObj l, rest)
                  | None => None
                  end
            | EmptyString => None
            end
          else parse_number s
      end
  end

with parse_elems (fuel : nat) (s : string) : option (list json * string) :=
  match fuel with
  | O => None
  | S fuel' =>
      match parse_value fuel' s with
      | Some (j, String c r) =>
          if Ascii.eqb c "," then
            match parse_elems fuel' r with
            | Some (l, rest) => Some (j :: l, rest)
            | None => None
            end
          else if Ascii.eqb c "]" then Some ([j], r)
          else None
      | _ => None
      end
  end

with parse_members (fuel : nat) (s : string)
  : option (list (string * json) * string) :=
  match fuel with
  | O => None
  | S fuel' =>
      match s with
      | String q r =>
          if Ascii.eqb q dquote then
            match parse_chars r with
            | Some (k, String colon r1) =>
                if Ascii.eqb colon ":" then
                  match parse_value fuel' r1 with
                  | Some (j, String c r2) =>
                      if Ascii.eqb c "," then
                        match parse_members fuel' r2 with
                        | Some (l, rest) => Some ((k, j) :: l, rest)
                        | None => None
                        end
                      else if Ascii.eqb c "}" then Some ([(k, j)], r2)
                      else None
                  | _ => None
                  end
                else None
            | _ => None
            end
          else None
      | EmptyString => None
      end
  end.

(** [JSON.parse(text)]; [None] is a [SyntaxError]. *)
Definition JSON_parse (text : string) : option json :=
  match parse_value (S (String.length text)) text with
  | Some (j, EmptyString) => Some j
  | _ => None
  end.

(** The field of a parsed object; a repeated key denotes its last value. *)
Definition field (k : string) (j : json) : option json :=
  match j with
  | JObj members => lookup k members
  | _ => None
  end.

(* ================================================================== *)
(** * The host: dates *)
(* ================================================================== *)

(** A time value is a number of milliseconds since the epoch, as
    [new Date()] reads it from the clock.  The calendar fields follow the
    proleptic Gregorian calendar (days are counted in 400-year eras that
    start on 1 March). *)
Definition msPerDay : Z := 86400000.

Definition Day (t : Z) : Z := (t / msPerDay)%Z.
Definition TimeWithinDay (t : Z) : Z := (t mod msPerDay)%Z.

Definition eraOf (days : Z) : Z := ((days + 719468) / 146097)%Z.

Definition dayOfEra (days : Z) : Z :=
  ((days + 719468) - eraOf days * 146097)%Z.

Definition yearOfEra (days : Z) : Z :=
  let doe := dayOfEra days in
  ((doe - doe / 1460 + doe / 36524 - doe / 146096) / 365)%Z.

Definition dayOfYear (days : Z) : Z :=
  let yoe := yearOfEra days in
  (dayOfEra days - (365 * yoe + yoe / 4 - yoe / 100))%Z.

Definition monthIndex (days : Z) : Z := ((5 * dayOfYear days + 2) / 153)%Z.

Definition DateFromTime (t : Z) : Z :=
  let days := Day t in
  (dayOfYear days - (153 * monthIndex days + 2) / 5 + 1)%Z.

(** The month, counted from 1 as [toISOString] prints it. *)
Definition MonthFromTime (t : Z) : Z :=
  let mp := monthIndex (Day t) in
  if (mp <? 10)%Z then (mp + 3)%Z else (mp - 9)%Z.

Definition YearFromTime (t : Z) : Z :=
  let days := Day t in
  (yearOfEra days + eraOf days * 400
   + (if (MonthFromTime t <=? 2)%Z then 1 else 0))%Z.

Definition HourFromTime (t : Z) : Z := (TimeWithinDay t / 3600000)%Z.
Definition MinFromTime (t : Z) : Z := (TimeWithinDay t / 60000 mod 60)%Z.
Definition SecFromTime (t : Z) : Z := (TimeWithinDay t / 1000 mod 60)%Z.
Definition msFromTime (t : Z) : Z := (TimeWithinDay t mod 1000)%Z.

(** The last decimal digit of a number. *)
Definition digit (n : Z) : ascii :=
  ascii_of_nat (48 + Z.to_nat (n mod 10)).

(** Zero-padded decimal fields; each prints a number below [10^width]. *)
Definition pad2 (n : Z) : string :=
  String (digit (n / 10)) (String (digit n) "").

Definition pad3 (n : Z) : string :=
  String (digit (n / 100)) (pad2 n).

Definition pad4 (n : Z) : string :=
  String (digit (n / 1000)) (pad3 n).

Definition pad6 (n : Z) : string :=
  String (digit (n / 100000)) (String (digit (n / 10000)) (pad4 n)).

(** [Date.prototype.toISOString]: [YYYY-MM-DDTHH:mm:ss.sssZ], with a
    signed six-digit year outside the years 0 to 9999.  The argument is
    the time value of a [Date] that [new Date()] read from the clock, so
    it is within the range of time values (whose years have at most six
    digits). *)
Definition toISOString (t : Z) : string :=
  let y := YearFromTime t in
  (if (0 <=? y)%Z && (y <=? 9999)%Z then pad4 y
   else String (if (y <? 0)%Z then "-"%char else "+"%char) (pad6 (Z.abs y)))
  ++ "-" ++ pad2 (MonthFromTime t) ++ "-" ++ pad2 (DateFromTime t)
  ++ "T" ++ pad2 (HourFromTime t) ++ ":" ++ pad2 (MinFromTime t)
  ++ ":" ++ pad2 (SecFromTime t) ++ "." ++ pad3 (msFromTime t) ++ "Z".

(** The first and the last time value of the four-digit years. *)
Definition minFourDigitTime : Z := (-62167219200000)%Z.
Definition maxFourDigitTime : Z := 253402300799999%Z.

Definition twoDigits (a b : ascii) : nat :=
  (10 * (nat_of_ascii a - 48) + (nat_of_ascii b - 48))%nat.

(** An ISO-8601 instant in UTC with millisecond precision:
    [YYYY-MM-DDTHH:mm:ss.sssZ] with month, day, hour, minute and second in
    their calendar ranges. *)
Definition isISOInstant (s : string) : bool :=
  match list_ascii_of_string s with
  | [y1; y2; y3; y4; d1; m1; m2; d2; a1; a2; t; h1; h2; c1; n1; n2; c2;
     s1; s2; dot; f1; f2; f3; z] =>
      forallb isDigit [y1; y2; y3; y4; m1; m2; a1; a2; h1; h2; n1; n2;
                       s1; s2; f1; f2; f3]
      && Ascii.eqb d1 "-" && Ascii.eqb d2 "-" && Ascii.eqb t "T"
      && Ascii.eqb c1 ":" && Ascii.eqb c2 ":" && Ascii.eqb dot "."
      && Ascii.eqb z "Z"
      && (1 <=? twoDigits m1 m2)%nat && (twoDigits m1 m2 <=? 12)%nat
      && (1 <=? twoDigits a1 a2)%nat && (twoDigits a1 a2 <=? 31)%nat
      && (twoDigits h1 h2 <=? 23)%nat && (twoDigits n1 n2 <=? 59)%nat
      && (twoDigits s1 s2 <=? 59)%nat
  | _ => false
  end.

(* ================================================================== *)
(** * The program: levels and the logger ([log.ts], lines 1 to 64) *)
(* ================================================================== *)

(** Abrupt completion of a call. *)
Inductive exn : Type :=
| Error (message : string)   (* [throw new Error(message)] *)
| TypeError.                 (* raised by the host *)

Inductive completion (A : Type) : Type :=
| Normal (a : A)
| Throw (e : exn).

Arguments Normal {A} a.
Arguments Throw {A} e.

Definition bind {A B} (c : completion A) (k : A -> completion B)
  : completion B :=
  match c with
  | Normal a => k a
  | Throw e => Throw e
  end.

Notation "x <- c ;; k" := (bind c (fun x => k))
  (at level 61, c at next level, right associativity).

Fixpoint mapM {A B} (f : A -> completion B) (l : list A)
  : completion (list B) :=
  match l with
  | [] => Normal []
  | x :: t => y <- f x ;; ys <- mapM f t ;; Normal (y :: ys)
  end.

(** A property read that raises on [undefined] and [null]. *)
Definition GetV (v : value) (k : string) : completion value :=
  match Get v k with
  | Some x => Normal x
  | None => Throw TypeError
  end.

Definition LogLevels : list string :=
  ["error"; "warn"; "info"; "debug"; "trace"].

Definition LEVELS : list (string * Z) :=
  [("error", 0%Z); ("warn", 1%Z); ("info", 2%Z); ("debug", 3%Z);
   ("trace", 4%Z)].

Definition hasOwnProperty {V} (o : list (string * V)) (k : string) : bool :=
  match lookup k o with Some _ => true | None => false end.

(** [isLogLevel(level)]; [None] is [undefined]. *)
Definition isLogLevel (level : option string) : bool :=
  match level with
  | None => false
  | Some s => hasOwnProperty LEVELS s
  end.

(** [a > b] on two table reads; a missing entry reads [undefined], and a
    comparison with [undefined] is false. *)
Definition gt (a b : option Z) : bool :=
  match a, b with
  | Some x, Some y => (y <? x)%Z
  | _, _ => false
  end.

(** The console: the calls made on it, oldest first. *)
Inductive consoleMethod : Type :=
| console_error | console_warn | console_info | console_log.

Definition Console : Type := list (consoleMethod * string).

Definition emit (m : consoleMethod) (line : string) (out : Console) : Console :=
  (out ++ [(m, line)])%list.

(* ------------------------------------------------------------------ *)
(** ** [serializeArgs], [isError], [mapError] ([log.ts], lines 66 to 103)

    [serializeArgs] and [mapError] coerce with [ToString], so they are
    the source functions on values whose objects inherit [toString];
    [Full.serializeArgs] and [Full.mapError] can raise. *)

(** The callback of [args.map(...)] in [serializeArgs]. *)
Definition serializeArg (a : value) : completion value :=
  if typeTag_eqb (typeof a) TString then Normal a
  else if instanceofError a then
    stack <- GetV a "stack" ;;
    if truthy stack then Normal stack else GetV a "message"
  else if isUndefined a then Normal (VStr "undefined")
  else
    Normal (match JSON_stringify a with
            | Some text => VStr text
            | None => VUndefined
            end).

Definition serializeArgs (args : list value) : completion string :=
  texts <- mapM serializeArg args ;;
  Normal (join " " texts).

Definition isError (obj : value) : bool :=
  instanceofError obj
  || (typeTag_eqb (typeof obj) TObject && negb (isNull obj)
      && HasProperty obj "message" && HasProperty obj "name").

Definition isString (v : value) : bool := typeTag_eqb (typeof v) TString.

(** [message ?? ''] *)
Definition orEmpty (v : value) : value :=
  if isNullish v then VStr "" else v.

Definition mapError (e : value) : completion value :=
  name <- GetV e "name" ;;
  message <- GetV e "message" ;;
  stack <- GetV e "stack" ;;
  code <- GetV e "code" ;;
  Normal (VObject
    ([("name", if isString name then name else VStr "Error");
      ("message",
       if isString message then message
       else VStr (ToString (orEmpty message)));
      ("stack", if isString stack then stack else VUndefined)]
     ++ (if negb (isUndefined code) then [("code", code)] else []))%list).

(* ------------------------------------------------------------------ *)
(** ** [logAt] ([log.ts], lines 105 to 150) *)

Definition isObjectArg (a : value) : bool :=
  typeTag_eqb (typeof a) TObject && negb (isNull a) && negb (isError a).

Definition isMessageArg (a : value) : bool :=
  negb (typeTag_eqb (typeof a) TObject) || isNull a.

Definition Entry : Type := list (string * value).

(** [errorArgs[0]]. *)
Definition first (l : list value) : value := nth 0 l VUndefined.

Definition lengthOf {A} (l : list A) : value :=
  VNum (Int (Z.of_nat (List.length l))).

(** Lines 130 to 136: the error fields. *)
Definition attachErrors (errorArgs : list value) (entry : Entry)
  : completion Entry :=
  if (0 <? List.length errorArgs)%nat then
    e0 <- mapError (first errorArgs) ;;
    let entry := set "error" e0 entry in
    let entry := set "error_count" (lengthOf errorArgs) entry in
    if (1 <? List.length errorArgs)%nat then
      es <- mapM mapError errorArgs ;;
      Normal (set "errors" (VArr es) entry)
    else Normal entry
  else Normal entry.

(** Lines 125 to 128: the message field. *)
Definition attachMessage (messageArgs : list value) (entry : Entry)
  : completion Entry :=
  msg <- serializeArgs messageArgs ;;
  Normal (if truthy (VStr msg) then set "message" (VStr msg) entry
          else entry).

(** Lines 109 to 123: the base entry and the merged object arguments. *)
Definition baseEntry (now : Z) (level : string) : Entry :=
  [("timestamp", VStr (toISOString now)); ("level", VStr level)].

Definition mergeObjects (objectArgs : list value) (entry : Entry) : Entry :=
  fold_left Object_assign objectArgs entry.

(** Lines 109 to 136: the entry of a call that passed the level check;
    [now] is the time value [new Date()] reads. *)
Definition buildEntry (now : Z) (level : string) (args : list value)
  : completion Entry :=
  let entry := baseEntry now level in
  let objectArgs := filter isObjectArg args in
  let messageArgs := filter isMessageArg args in
  let errorArgs := filter isError args in
  let entry := mergeObjects objectArgs entry in
  entry <- attachMessage messageArgs entry ;;
  attachErrors errorArgs entry.

(** Lines 140 to 149. *)
Definition sinkOf (level : string) : consoleMethod :=
  if String.eqb level "error" then console_error
  else if String.eqb level "warn" then console_warn
  else if String.eqb level "info" then console_info
  else console_log.

Definition logAt (now : Z) (currentLevel level : string) (args : list value)
    (out : Console) : completion Console :=
  if gt (lookup level LEVELS) (lookup currentLevel LEVELS) then Normal out
  else
    entry <- buildEntry now level args ;;
    let line := JSON_stringify_record entry in
    Normal (emit (sinkOf level) line out).

(* ------------------------------------------------------------------ *)
(** ** [StandardLogger] ([log.ts], lines 31 to 64) *)

Module StandardLogger.

Record t : Type := { logLevel : string }.

(** [new StandardLogger(initialLogLevel)]; [None] is an absent
    argument. *)
Definition constructor (initialLogLevel : option string) : t :=
  match initialLogLevel with
  | Some s =>
      if truthy (VStr s) && isLogLevel initialLogLevel
      then {| logLevel := s |}
      else {| logLevel := "warn" |}
  | None => {| logLevel := "warn" |}
  end.

(** The template literal [`Invalid log level: ${level}`]. *)
Definition invalidLevelMessage (level : option string) : string :=
  "Invalid log level: "
  ++ match level with Some s => s | None => "undefined" end.

(** [this.setLogLevel(level)]: the logger after the call, and how the
    call completed. *)
Definition setLogLevel (this : t) (level : option string)
  : t * completion unit :=
  if negb (isLogLevel level)
  then (this, Throw (Error (invalidLevelMessage level)))
  else
    match level with
    | Some s => ({| logLevel := s |}, Normal tt)
    | None => (this, Normal tt)
    end.

Definition error (this : t) (now : Z) (args : list value) (out : Console)
  : completion Console := logAt now (logLevel this) "error" args out.

Definition warn (this : t) (now : Z) (args : list value) (out : Console)
  : completion Console := logAt now (logLevel this) "warn" args out.

Definition info (this : t) (now : Z) (args : list value) (out : Console)
  : completion Console := logAt now (logLevel this) "info" args out.

Definition debug (this : t) (now : Z) (args : list value) (out : Console)
  : completion Console := logAt now (logLevel this) "debug" args out.

Definition trace (this : t) (now : Z) (args : list value) (out : Console)
  : completion Console := logAt now (logLevel this) "trace" args out.

(** [logger[level]]: the per-level method of that name. *)
Definition method (level : string)
  : option (t -> Z -> list value -> Console -> completion Console) :=
  if String.eqb level "error" then Some error
  else if String.eqb level "warn" then Some warn
  else if String.eqb level "info" then Some info
  else if String.eqb level "debug" then Some debug
  else if String.eqb level "trace" then Some trace
  else None.

(** The loggers a program can hold: built by the constructor, then
    taken through [setLogLevel] calls. *)
Inductive reachable : t -> Prop :=
| reach_new : forall initialLogLevel,
    reachable (constructor initialLogLevel)
| reach_set : forall this level,
    reachable this ->
    reachable (fst (setLogLevel this level)).

End StandardLogger.

(* ------------------------------------------------------------------ *)
(** ** The earlier [logAt] ([part_001], lines 88 to 132)

    Lines 1 to 86 of [part_001] are those of [log.ts]; the file has no
    [mapError] and its [logAt] differs in the error fields only. *)

Module Part001.

(** The callback of [errorArgs.map(...)], lines 113 to 117. *)
Definition pickError (e : value) : completion value :=
  name <- GetV e "name" ;;
  message <- GetV e "message" ;;
  stack <- GetV e "stack" ;;
  Normal (VObject [("name", name); ("message", message); ("stack", stack)]).

(** Lines 112 to 118. *)
Definition attachErrors (errorArgs : list value) (entry : Entry)
  : completion Entry :=
  if (0 <? List.length errorArgs)%nat then
    es <- mapM pickError errorArgs ;;
    Normal (set "errors" (VArr es) entry)
  else Normal entry.

Definition buildEntry (now : Z) (level : string) (args : list value)
  : completion Entry :=
  let entry := baseEntry now level in
  let objectArgs := filter isObjectArg args in
  let messageArgs := filter isMessageArg args in
  let errorArgs := filter isError args in
  let entry := mergeObjects objectArgs entry in
  entry <- attachMessage messageArgs entry ;;
  attachErrors errorArgs entry.

Definition logAt (now : Z) (currentLevel level : string)
    (args : list value) (out : Console) : completion Console :=
  if gt (lookup level LEVELS) (lookup currentLevel LEVELS) then Normal out
  else
    entry <- buildEntry now level args ;;
    let line := JSON_stringify_record entry in
    Normal (emit (sinkOf level) line out).

End Part001.

(* ================================================================== *)
(** * Definitions for the properties

    What the specification says, in its own words, and the values the
    program computes, written out without the completion monad. *)
(* ================================================================== *)

(** The fields the object arguments write, in the order they are written. *)
Definition contextFields (objectArgs : list value) : list (string * value) :=
  flat_map ownEnumerable objectArgs.

(** The value of a property read on a value that has properties. *)
Definition read (v : value) (k : string) : value :=
  match Get v k with
  | Some x => x
  | None => VUndefined
  end.

(** The result of [mapError] on a value that has properties. *)
Definition normalized (e : value) : value :=
  let name := read e "name" in
  let message := read e "message" in
  let stack := read e "stack" in
  let code := read e "code" in
  VObject
    ([("name", if isString name then name else VStr "Error");
      ("message",
       if isString message then message
       else VStr (ToString (orEmpty message)));
      ("stack", if isString stack then stack else VUndefined)]
     ++ (if negb (isUndefined code) then [("code", code)] else []))%list.

(** The text of one message fragment, after the specification: a string
    as it is, [undefined] as the word, anything else JSON-encoded. *)
Definition fragmentText (a : value) : string :=
  match a with
  | VStr s => s
  | VUndefined => "undefined"
  | _ => match JSON_stringify a with Some text => text | None => "" end
  end.

(** The rendered message of a list of fragments, after the
    specification. *)
Definition renderedMessage (fragments : list value) : string :=
  String.concat " " (map fragmentText fragments).

(** The entry of a call that passed the level check, written out. *)
Definition messageStep (fragments : list value) (entry : Entry) : Entry :=
  let msg := renderedMessage fragments in
  if String.eqb msg "" then entry else set "message" (VStr msg) entry.

Definition errorStep (errorArgs : list value) (entry : Entry) : Entry :=
  match errorArgs with
  | [] => entry
  | [e] =>
      set "error_count" (lengthOf errorArgs) (set "error" (normalized e) entry)
  | e :: _ =>
      set "errors" (VArr (map normalized errorArgs))
        (set "error_count" (lengthOf errorArgs)
           (set "error" (normalized e) entry))
  end.

Definition mergedEntry (now : Z) (level : string) (args : list value)
  : Entry :=
  mergeObjects (filter isObjectArg args) (baseEntry now level).

Definition entryOf (now : Z) (level : string) (args : list value) : Entry :=
  errorStep (filter isError args)
    (messageStep (filter isMessageArg args) (mergedEntry now level args)).

(** The keys the message step and the error step write. *)
Definition messageKeys (fragments : list value) : list string :=
  if String.eqb (renderedMessage fragments) "" then [] else ["message"].

Definition errorKeys (errorArgs : list value) : list string :=
  match errorArgs with
  | [] => []
  | [_] => ["error"; "error_count"]
  | _ => ["error"; "error_count"; "errors"]
  end.

(** A console that received exactly one more line. *)
Definition oneMoreLine (out : Console) (r : completion Console) : Prop :=
  exists m line, r = Normal (out ++ [(m, line)])%list.

(** The three groups, after the specification. *)
Definition errorLike (a : value) : Prop :=
  instanceofError a = true \/
  (typeof a = TObject /\ a <> VNull /\
   HasProperty a "name" = true /\ HasProperty a "message" = true).

Definition contextObject (a : value) : Prop :=
  typeof a = TObject /\ a <> VNull /\ ~ errorLike a.

Definition messageFragment (a : value) : Prop :=
  typeof a <> TObject \/ a = VNull.

(** [classified args es os ms]: walking [args] from the left, every
    argument goes to the end of exactly one of the three sequences, the
    one of its group. *)
Inductive classified
  : list value -> list value -> list value -> list value -> Prop :=
| classified_nil : classified [] [] [] []
| classified_error : forall a args es os ms,
    errorLike a -> classified args es os ms ->
    classified (a :: args) (a :: es) os ms
| classified_object : forall a args es os ms,
    contextObject a -> classified args es os ms ->
    classified (a :: args) es (a :: os) ms
| classified_message : forall a args es os ms,
    messageFragment a -> classified args es os ms ->
    classified (a :: args) es os (a :: ms).

(** The entry before the error fields are attached; both revisions build
    it alike. *)
Definition entryBeforeErrors (now : Z) (level : string) (args : list value)
  : Entry :=
  messageStep (filter isMessageArg args) (mergedEntry now level args).

(** The result of [Part001.pickError] on a value that has properties. *)
Definition picked (e : value) : value :=
  VObject [("name", read e "name"); ("message", read e "message");
           ("stack", read e "stack")].

Definition part001_entryOf (now : Z) (level : string) (args : list value)
  : Entry :=
  match filter isError args with
  | [] => entryBeforeErrors now level args
  | es => set "errors" (VArr (map picked es))
              (entryBeforeErrors now level args)
  end.

(** A system error as the host raises it: an [Error] with an enumerable
    [code]. *)
Definition systemError : value :=
  VObj (ErrorPrototype "Error")
       [("stack", (false, VStr "Error: no such file"));
        ("message", (false, VStr "no such file"));
        ("code", (true, VStr "ENOENT"))].

(** The sentence of the specification on the earlier revision: its
    [errors] array holds the normalized errors. *)
Definition errors_array_is_normalized : Prop :=
  forall now level args,
    filter isError args <> [] ->
    exists entry,
      Part001.buildEntry now level args = Normal entry /\
      lookup "errors" entry =
        Some (VArr (map normalized (filter isError args))).

(** A text that does not go on with a digit. *)
Definition stops (rest : string) : Prop :=
  match rest with
  | EmptyString => True
  | String c _ => digitOf c = None
  end.

(** The first character of a number: a minus sign or a digit. *)
Definition numeric (c : ascii) : Prop :=
  c = "-"%char \/ digitOf c <> None.

(** The fuel a value needs. *)
Fixpoint jsize (j : json) : nat :=
  match j with
  | JArr elems => S (fold_right (fun x n => S (jsize x + n)) 0%nat elems)
  | JObj members =>
      S (fold_right (fun m n => S (jsize (snd m) + n)) 0%nat members)
  | _ => 1
  end.

Definition renderMember (m : string * json) : string :=
  quote (fst m) ++ ":" ++ render (snd m).

(** The sentence of the specification on the emitted line: it parses to
    a mapping whose [timestamp] is an ISO-8601 instant and whose [level]
    is one of the five names. *)
Definition line_keeps_base_fields : Prop :=
  forall this L m now args out,
    StandardLogger.method L = Some m ->
    (minFourDigitTime <= now <= maxFourDigitTime)%Z ->
    gt (lookup L LEVELS) (lookup (StandardLogger.logLevel this) LEVELS)
      = false ->
    exists line j ts lv,
      m this now args out = Normal (emit (sinkOf L) line out) /\
      JSON_parse line = Some j /\
      field "timestamp" j = Some (JStr ts) /\ isISOInstant ts = true /\
      field "level" j = Some (JStr lv) /\ In lv LogLevels.

(** A text without control characters, hence without a line break. *)
Definition printable (s : string) : bool :=
  forallb (fun c => (32 <=? nat_of_ascii c)%nat) (list_ascii_of_string s).

(** A per-level call as a program makes it: the name of the method, the
    time the call reads from the clock, the arguments. *)
Definition call : Type := (string * (Z * list value))%type.

Definition callLevel (c : call) : string := fst c.

(** The level check of [logAt], line 107, as a test on a call. *)
Definition passes (threshold : string) (c : call) : bool :=
  negb (gt (lookup (callLevel c) LEVELS) (lookup threshold LEVELS)).

(** [setLogLevel] calls made one after the other by a program that
    catches the error of each. *)
Definition setLogLevels (this : StandardLogger.t)
    (levels : list (option string)) : StandardLogger.t :=
  fold_left (fun lg level => fst (StandardLogger.setLogLevel lg level))
            levels this.

(** The last level of a list that [isLogLevel] accepts. *)
Definition lastLogLevel (levels : list (option string)) : option string :=
  match find isLogLevel (List.rev levels) with
  | Some (Some s) => Some s
  | _ => None
  end.

(** The fields [logAt] writes by itself. *)
Definition ownKeys : list string :=
  ["timestamp"; "level"; "message"; "error"; "error_count"; "errors"].

(* ================================================================== *)
(** * The program with the coercions that raise

    [ToString] above is the coercion of a value none of whose objects
    has a [toString] property of its own, [Object_assign] is the
    assignment of keys other than [__proto__], and [Z_to_string] is the
    text of an integer below 10^21.  The module [Full] embeds the same
    source lines without the three restrictions:
    - [String(v)] on an object that owns a [toString] property raises a
      [TypeError] (no value of the model is callable, and
      [Object.prototype.valueOf] returns the object itself), so
      [mapError] and [Array.prototype.join] can raise;
    - [Object.assign] writes with [[Set]], which hands the key
      [__proto__] to the setter of [Object.prototype] as long as the
      chain of the entry reaches it;
    - the text of a finite number is a parameter, [numberText].

    [JSON.stringify] raises on no value of the model (it raises on a
    bigint and on a cyclic structure, which are no values of it), so the
    statements about [Full.logAt] leave room for a call that raises
    wherever they speak of the line. *)
(* ================================================================== *)

Module Full.

Section Host.

(** [Number::toString] on the integer-valued numbers. *)
Variable numberText : Z -> string.

Definition number_to_string (n : number) : string :=
  match n with
  | Int z => numberText z
  | NaN => "NaN"
  | PosInfinity => "Infinity"
  | NegInfinity => "-Infinity"
  end.

(** The completion of an optional coercion: [None] stays [None]. *)
Definition optional {A} (c : option (completion A)) : completion (option A) :=
  match c with
  | Some c => a <- c ;; Normal (Some a)
  | None => Normal None
  end.

(** [String(v)].  On an object OrdinaryToPrimitive reads [toString] and
    then [valueOf]: an own [toString] is no function, and [valueOf],
    own or inherited, gives no primitive, hence the [TypeError];
    otherwise the inherited [toString] runs, [Object.prototype.toString]
    or [Error.prototype.toString], the latter coercing [name] and then
    [message]. *)
Fixpoint ToString (v : value) : completion string :=
  match v with
  | VUndefined => Normal "undefined"
  | VNull => Normal "null"
  | VBool true => Normal "true"
  | VBool false => Normal "false"
  | VNum n => Normal (number_to_string n)
  | VStr s => Normal s
  | VArr elems =>
      texts <- mapM (fun e => if isNullish e then Normal ""
                              else ToString e) elems ;;
      Normal (String.concat "," texts)
  | VObj proto props =>
      if hasOwnProperty (ownProps props) "toString" then Throw TypeError
      else
        match proto with
        | ObjectPrototype => Normal "[object Object]"
        | ErrorPrototype n =>
            let strs :=
              map (fun p => (pkey p,
                             if isUndefined (pvalue p) then None
                             else Some (ToString (pvalue p)))) props in
            name <- optional (match lookup "name" strs with
                              | Some x => x
                              | None => Some (Normal n)
                              end) ;;
            message <- optional (match lookup "message" strs with
                                 | Some x => x
                                 | None => Some (Normal "")
                                 end) ;;
            Normal (errorToString name message)
        end
  end.

(** [arr.join(sep)]. *)
Definition join (sep : string) (arr : list value) : completion string :=
  texts <- mapM (fun e => if isNullish e then Normal ""
                          else ToString e) arr ;;
  Normal (String.concat sep texts).

(** The compact text of a JSON value. *)
Fixpoint render (j : json) : string :=
  match j with
  | JNull => "null"
  | JBool true => "true"
  | JBool false => "false"
  | JNum z => numberText z
  | JStr s => quote s
  | JArr elems => "[" ++ String.concat "," (map render elems) ++ "]"
  | JObj members =>
      "{" ++ String.concat ","
               (map (fun m => quote (fst m) ++ ":" ++ render (snd m)) members)
          ++ "}"
  end.

(** [JSON.stringify(v)]; [None] is [undefined]. *)
Definition JSON_stringify (v : value) : option string :=
  option_map render (toJSON v).

Definition JSON_stringify_record (o : list (string * value)) : string :=
  render (JObj (toMembers o)).

(* ------------------------------------------------------------------ *)
(** ** [serializeArgs] and [mapError] ([log.ts], lines 66 to 103) *)

Definition serializeArg (a : value) : completion value :=
  if typeTag_eqb (typeof a) TString then Normal a
  else if instanceofError a then
    stack <- GetV a "stack" ;;
    if truthy stack then Normal stack else GetV a "message"
  else if isUndefined a then Normal (VStr "undefined")
  else
    Normal (match JSON_stringify a with
            | Some text => VStr text
            | None => VUndefined
            end).

Definition serializeArgs (args : list value) : completion string :=
  texts <- mapM serializeArg args ;;
  join " " texts.

Definition mapError (e : value) : completion value :=
  name <- GetV e "name" ;;
  message <- GetV e "message" ;;
  stack <- GetV e "stack" ;;
  code <- GetV e "code" ;;
  text <- (if isString message then Normal message
           else s <- ToString (orEmpty message) ;; Normal (VStr s)) ;;
  Normal (VObject
    ([("name", if isString name then name else VStr "Error");
      ("message", text);
      ("stack", if isString stack then stack else VUndefined)]
     ++ (if negb (isUndefined code) then [("code", code)] else []))%list).

(* ------------------------------------------------------------------ *)
(** ** The entry and [Object.assign] *)

(** The prototype of the entry: [Object.prototype] as the literal gives
    it, or what a [__proto__] assignment made it. *)
Inductive entryPrototype : Type :=
| ObjectProto
| NullProto
| ValueProto (v : value).

Record Entry : Type := { fields : list (string * value);
                         proto : entryPrototype }.

(** [CreateDataProperty], or the update of an own data property. *)
Definition store (k : string) (v : value) (o : Entry) : Entry :=
  {| fields := set k v (fields o); proto := proto o |}.

(** Whether the chain above the entry ends, or has a data property
    [__proto__], before it reaches the accessor of [Object.prototype]. *)
Definition shadowsProto (p : entryPrototype) : bool :=
  match p with
  | ObjectProto => false
  | NullProto => true
  | ValueProto (VObj _ props) => hasOwnProperty (ownProps props) "__proto__"
  | ValueProto _ => false
  end.

(** The setter of [Object.prototype.__proto__]: an object or [null]
    becomes the prototype, any other value is ignored. *)
Definition setPrototypeOf (o : Entry) (v : value) : Entry :=
  match v with
  | VNull => {| fields := fields o; proto := NullProto |}
  | VArr _ | VObj _ _ => {| fields := fields o; proto := ValueProto v |}
  | _ => o
  end.

(** [o[k] = v], that is [[Set]]: every property the chain can hold is a
    writable data property but the accessor [__proto__]. *)
Definition put (k : string) (v : value) (o : Entry) : Entry :=
  if String.eqb k "__proto__" && negb (hasOwnProperty (fields o) k)
     && negb (shadowsProto (proto o))
  then setPrototypeOf o v
  else store k v o.

Definition Object_assign (target : Entry) (source : value) : Entry :=
  fold_left (fun o kv => put (fst kv) (snd kv) o) (ownEnumerable source)
            target.

(* ------------------------------------------------------------------ *)
(** ** [logAt] ([log.ts], lines 105 to 150) *)

Definition attachErrors (errorArgs : list value) (entry : Entry)
  : completion Entry :=
  if (0 <? List.length errorArgs)%nat then
    e0 <- mapError (first errorArgs) ;;
    let entry := put "error" e0 entry in
    let entry := put "error_count" (lengthOf errorArgs) entry in
    if (1 <? List.length errorArgs)%nat then
      es <- mapM mapError errorArgs ;;
      Normal (put "errors" (VArr es) entry)
    else Normal entry
  else Normal entry.

Definition attachMessage (messageArgs : list value) (entry : Entry)
  : completion Entry :=
  msg <- serializeArgs messageArgs ;;
  Normal (if truthy (VStr msg) then put "message" (VStr msg) entry
          else entry).

Definition baseEntry (now : Z) (level : string) : Entry :=
  {| fields := [("timestamp", VStr (toISOString now)); ("level", VStr level)];
     proto := ObjectProto |}.

Definition mergeObjects (objectArgs : list value) (entry : Entry) : Entry :=
  fold_left Object_assign objectArgs entry.

Definition buildEntry (now : Z) (level : string) (args : list value)
  : completion Entry :=
  let entry := baseEntry now level in
  let objectArgs := filter isObjectArg args in
  let messageArgs := filter isMessageArg args in
  let errorArgs := filter isError args in
  let entry := mergeObjects objectArgs entry in
  entry <- attachMessage messageArgs entry ;;
  attachErrors errorArgs entry.

Definition logAt (now : Z) (currentLevel level : string) (args : list value)
    (out : Console) : completion Console :=
  if gt (lookup level LEVELS) (lookup currentLevel LEVELS) then Normal out
  else
    entry <- buildEntry now level args ;;
    let line := JSON_stringify_record (fields entry) in
    Normal (emit (sinkOf level) line out).

(** The per-level methods ([log.ts], lines 49 to 63). *)
Definition error (this : StandardLogger.t) (now : Z) (args : list value)
    (out : Console) : completion Console :=
  logAt now (StandardLogger.logLevel this) "error" args out.

Definition warn (this : StandardLogger.t) (now : Z) (args : list value)
    (out : Console) : completion Console :=
  logAt now (StandardLogger.logLevel this) "warn" args out.

Definition info (this : StandardLogger.t) (now : Z) (args : list value)
    (out : Console) : completion Console :=
  logAt now (StandardLogger.logLevel this) "info" args out.

Definition debug (this : StandardLogger.t) (now : Z) (args : list value)
    (out : Console) : completion Console :=
  logAt now (StandardLogger.logLevel this) "debug" args out.

Definition trace (this : StandardLogger.t) (now : Z) (args : list value)
    (out : Console) : completion Console :=
  logAt now (StandardLogger.logLevel this) "trace" args out.

Definition method (level : string)
  : option (StandardLogger.t -> Z -> list value -> Console
            -> completion Console) :=
  if String.eqb level "error" then Some error
  else if String.eqb level "warn" then Some warn
  else if String.eqb level "info" then Some info
  else if String.eqb level "debug" then Some debug
  else if String.eqb level "trace" then Some trace
  else None.

(* ------------------------------------------------------------------ *)
(** ** The earlier [logAt] ([part_001], lines 88 to 132) *)

Definition part001_attachErrors (errorArgs : list value) (entry : Entry)
  : completion Entry :=
  if (0 <? List.length errorArgs)%nat then
    es <- mapM Part001.pickError errorArgs ;;
    Normal (put "errors" (VArr es) entry)
  else Normal entry.

Definition part001_buildEntry (now : Z) (level : string) (args : list value)
  : completion Entry :=
  let entry := baseEntry now level in
  let objectArgs := filter isObjectArg args in
  let messageArgs := filter isMessageArg args in
  let errorArgs := filter isError args in
  let entry := mergeObjects objectArgs entry in
  entry <- attachMessage messageArgs entry ;;
  part001_attachErrors errorArgs entry.

Definition part001_logAt (now : Z) (currentLevel level : string)
    (args : list value) (out : Console) : completion Console :=
  if gt (lookup level LEVELS) (lookup currentLevel LEVELS) then Normal out
  else
    entry <- part001_buildEntry now level args ;;
    let line := JSON_stringify_record (fields entry) in
    Normal (emit (sinkOf level) line out).

(* ------------------------------------------------------------------ *)
(** ** What the specification says, and the values the program computes *)

(** The text of one message fragment, after the specification: a string
    as it is, [undefined] as the word, anything else as JSON writes it
    ([null], [true], [false], the text of a finite number, and [null]
    for a number that is not finite). *)
Definition fragmentText (a : value) : string :=
  match a with
  | VStr s => s
  | VUndefined => "undefined"
  | VNull => "null"
  | VBool true => "true"
  | VBool false => "false"
  | VNum (Int z) => numberText z
  | VNum _ => "null"
  | VArr _ | VObj _ _ => ""
  end.

Definition renderedMessage (fragments : list value) : string :=
  String.concat " " (map fragmentText fragments).

Definition messageStep (fragments : list value) (entry : Entry) : Entry :=
  let msg := renderedMessage fragments in
  if String.eqb msg "" then entry else store "message" (VStr msg) entry.

Definition messageKeys (fragments : list value) : list string :=
  if String.eqb (renderedMessage fragments) "" then [] else ["message"].

(** The error fields, given the normalized errors. *)
Definition errorFields (normalizedErrors : list value) (entry : Entry)
  : Entry :=
  match normalizedErrors with
  | [] => entry
  | [r] =>
      store "error_count" (lengthOf normalizedErrors) (store "error" r entry)
  | r :: _ =>
      store "errors" (VArr normalizedErrors)
        (store "error_count" (lengthOf normalizedErrors)
           (store "error" r entry))
  end.

Definition mergedEntry (now : Z) (level : string) (args : list value)
  : Entry :=
  mergeObjects (filter isObjectArg args) (baseEntry now level).

(** The entry before the error fields are attached; both revisions build
    it alike. *)
Definition entryBeforeErrors (now : Z) (level : string) (args : list value)
  : Entry :=
  messageStep (filter isMessageArg args) (mergedEntry now level args).

(** The value [serializeArgs] hands to [join] for one argument. *)
Definition serialized (a : value) : value :=
  if isString a then a
  else if instanceofError a then
    if truthy (read a "stack") then read a "stack" else read a "message"
  else if isUndefined a then VStr "undefined"
  else match JSON_stringify a with
       | Some text => VStr text
       | None => VUndefined
       end.

(** The calls [logger[level](...args)] made one after the other; the
    first call that raises ends the run. *)
Fixpoint callEach (this : StandardLogger.t) (calls : list call)
    (out : Console)
  : completion Console :=
  match calls with
  | [] => Normal out
  | (L, (now, args)) :: rest =>
      match method L with
      | Some m => out' <- m this now args out ;; callEach this rest out'
      | None => Throw TypeError
      end
  end.

End Host.

End Full.

(** The keys the error step writes, by the number of error-like
    arguments. *)
Definition errorKeysOf (count : nat) : list string :=
  match count with
  | 0 => []
  | 1 => ["error"; "error_count"]
  | _ => ["error"; "error_count"; "errors"]
  end%nat.

(** An argument that is [undefined], [null], a boolean, a number or a
    string. *)
Definition isPrimitive (a : value) : bool :=
  match a with
  | VUndefined | VNull | VBool _ | VNum _ | VStr _ => true
  | VArr _ | VObj _ _ => false
  end.

(** An error-like value whose message cannot be coerced:
    [{name: 'E', message: {toString: null}}]. *)
Definition malformed : value :=
  VObject [("name", VStr "E"); ("message", VObject [("toString", VNull)])].

(** An object with a property [__proto__] of its own, as
    [JSON.parse('{"__proto__": 1}')] gives it. *)
Definition protoKeyed : value := VObject [("__proto__", VNum (Int 1))].

(** The sentence of the specification on the level check: a call writes
    one line exactly when its rank is at most the rank of the
    threshold. *)
Definition emitted_iff_rank : Prop :=
  forall numberText this L m now args out rL rT,
    StandardLogger.reachable this ->
    Full.method numberText L = Some m ->
    lookup L LEVELS = Some rL ->
    lookup (StandardLogger.logLevel this) LEVELS = Some rT ->
    (oneMoreLine out (m this now args out) <-> (rL <= rT)%Z).

(** The sentence of the specification on the merge: every field of a
    context object is a field of the entry, unless the message or the
    error step writes it later. *)
Definition context_is_merged : Prop :=
  forall numberText now level args entry k,
    Full.buildEntry numberText now level args = Normal entry ->
    ~ In k (Full.messageKeys numberText (filter isMessageArg args)
            ++ errorKeysOf (List.length (filter isError args)))%list ->
    lookup k (Full.fields entry) =
    match lookup k (contextFields (filter isObjectArg args)) with
    | Some v => Some v
    | None => lookup k (Full.fields (Full.baseEntry now level))
    end.

(** A value none of whose objects has a [toString] property of its own:
    every coercion of it runs an inherited [toString]. *)
Fixpoint plain (v : value) : bool :=
  match v with
  | VArr elems => forallb plain elems
  | VObj _ props =>
      negb (hasOwnProperty (ownProps props) "toString")
      && forallb (fun p => plain (pvalue p)) props
  | _ => true
  end.

(** An object without an enumerable [__proto__] property of its own. *)
Definition protoFree (a : value) : bool :=
  negb (hasOwnProperty (ownEnumerable a) "__proto__").

(* ================================================================== *)
(** * Properties of the host *)
(* ================================================================== *)

Section AssocLists.

Context {V : Type}.
Implicit Types (o l : list (string * V)) (k : string) (v : V).

Lemma lookup_app k l1 l2 :
  lookup k (l1 ++ l2) =
  match lookup k l2 with
  | Some x => Some x
  | None => lookup k l1
  end.
Proof.
  induction l1 as [|[k' v'] t IH]; simpl.
  - destruct (lookup k l2); reflexivity.
  - rewrite IH. destruct (lookup k l2); reflexivity.
Qed.

Lemma lookup_None_iff k l : lookup k l = None <-> ~ In k (keys l).
Proof.
  induction l as [|[k' v'] t IH]; simpl.
  - tauto.
  - destruct (lookup k t) eqn:E.
    + split; [discriminate|]. intros H. exfalso. apply H. right.
      destruct (in_dec string_dec k (keys t)) as [i|n]; [exact i|].
      apply IH in n. discriminate.
    + destruct (String.eqb_spec k' k) as [->|ne].
      * split; [discriminate|]. intros H. exfalso. apply H. now left.
      * split; [|reflexivity]. intros _ [e|i]; [contradiction|].
        now apply IH in i.
Qed.

Lemma lookup_Some_In k v l : lookup k l = Some v -> In (k, v) l.
Proof.
  induction l as [|[k' v'] t IH]; simpl; [discriminate|].
  destruct (lookup k t) eqn:E.
  - intros [= <-]. right. now apply IH.
  - destruct (String.eqb_spec k' k) as [->|ne]; [|discriminate].
    intros [= <-]. now left.
Qed.

Lemma keys_set k v o :
  keys (set k v o) = if in_dec string_dec k (keys o) then keys o
                     else (keys o ++ [k])%list.
Proof.
  induction o as [|[k' v'] t IH]; [reflexivity|].
  cbn [set]. destruct (String.eqb_spec k' k) as [->|ne].
  - destruct (in_dec string_dec k (keys ((k, v') :: t))) as [i|n].
    + reflexivity.
    + exfalso. apply n. now left.
  - change (keys ((k', v') :: set k v t)) with (k' :: keys (set k v t)).
    rewrite IH.
    destruct (in_dec string_dec k (keys t)) as [i|n];
      destruct (in_dec string_dec k (keys ((k', v') :: t))) as [i'|n'].
    + reflexivity.
    + exfalso. apply n'. now right.
    + exfalso. destruct i' as [e|i']; [now apply ne|now apply n].
    + reflexivity.
Qed.

Lemma NoDup_set k v o : NoDup (keys o) -> NoDup (keys (set k v o)).
Proof.
  intros H. rewrite keys_set.
  destruct (in_dec string_dec k (keys o)) as [i|n]; [exact H|].
  apply NoDup_app; [exact H|constructor; [intros []|constructor]|].
  intros x Hx [<-|[]]. contradiction.
Qed.

Lemma lookup_set_same k v o :
  NoDup (keys o) -> lookup k (set k v o) = Some v.
Proof.
  induction o as [|[k' v'] t IH]; simpl; intros H.
  - now rewrite String.eqb_refl.
  - inversion H as [|? ? Hn Ht]; subst.
    destruct (String.eqb_spec k' k) as [->|ne]; simpl.
    + apply lookup_None_iff in Hn. rewrite Hn.
      now rewrite String.eqb_refl.
    + now rewrite (IH Ht).
Qed.

Lemma lookup_set_other k k' v o :
  k <> k' -> lookup k' (set k v o) = lookup k' o.
Proof.
  intros ne. induction o as [|[k0 v0] t IH]; simpl.
  - destruct (String.eqb_spec k k'); [contradiction|reflexivity].
  - destruct (String.eqb_spec k0 k) as [->|ne0]; simpl.
    + destruct (String.eqb_spec k k'); [contradiction|reflexivity].
    + now rewrite IH.
Qed.

Lemma lookup_set k k' v o :
  NoDup (keys o) ->
  lookup k' (set k v o) = if String.eqb k k' then Some v else lookup k' o.
Proof.
  intros H. destruct (String.eqb_spec k k') as [<-|ne].
  - now apply lookup_set_same.
  - now apply lookup_set_other.
Qed.

End AssocLists.

(** Performing a list of writes: the last write of a key wins, and a key
    that is not written keeps its value. *)
Lemma NoDup_writes (writes : list (string * value)) (o : Entry) :
  NoDup (keys o) ->
  NoDup (keys (fold_left (fun o kv => set (fst kv) (snd kv) o) writes o)).
Proof.
  revert o. induction writes as [|[k v] t IH]; simpl; intros o H; [exact H|].
  apply IH. now apply NoDup_set.
Qed.

Lemma lookup_writes (writes : list (string * value)) (o : Entry) k :
  NoDup (keys o) ->
  lookup k (fold_left (fun o kv => set (fst kv) (snd kv) o) writes o) =
  match lookup k writes with
  | Some x => Some x
  | None => lookup k o
  end.
Proof.
  revert o. induction writes as [|[k' v] t IH]; simpl; intros o H.
  - reflexivity.
  - rewrite IH by now apply NoDup_set.
    destruct (lookup k t); [reflexivity|].
    rewrite lookup_set by exact H.
    now destruct (String.eqb k' k).
Qed.

Lemma NoDup_Object_assign (o : Entry) a :
  NoDup (keys o) -> NoDup (keys (Object_assign o a)).
Proof. apply NoDup_writes. Qed.

Lemma lookup_Object_assign (o : Entry) a k :
  NoDup (keys o) ->
  lookup k (Object_assign o a) =
  match lookup k (ownEnumerable a) with
  | Some x => Some x
  | None => lookup k o
  end.
Proof. apply lookup_writes. Qed.

Lemma NoDup_mergeObjects objs (o : Entry) :
  NoDup (keys o) -> NoDup (keys (mergeObjects objs o)).
Proof.
  revert o. induction objs as [|a t IH]; intros o H; [exact H|].
  apply (IH (Object_assign o a)). now apply NoDup_Object_assign.
Qed.

Lemma lookup_mergeObjects objs (o : Entry) k :
  NoDup (keys o) ->
  lookup k (mergeObjects objs o) =
  match lookup k (contextFields objs) with
  | Some x => Some x
  | None => lookup k o
  end.
Proof.
  revert o. induction objs as [|a t IH]; intros o H; [reflexivity|].
  change (mergeObjects (a :: t) o) with (mergeObjects t (Object_assign o a)).
  rewrite IH by now apply NoDup_Object_assign.
  change (contextFields (a :: t))
    with (ownEnumerable a ++ contextFields t)%list.
  rewrite lookup_app.
  destruct (lookup k (contextFields t)); [reflexivity|].
  now apply lookup_Object_assign.
Qed.

Lemma NoDup_baseEntry now level : NoDup (keys (baseEntry now level)).
Proof.
  simpl. constructor; [|constructor; [intros []|constructor]].
  intros [H|[]]. discriminate.
Qed.

(** Entries keep their keys distinct. *)
Create HintDb entry.
#[local] Hint Resolve NoDup_set NoDup_baseEntry NoDup_mergeObjects
  NoDup_Object_assign : entry.

(* ------------------------------------------------------------------ *)
(** ** Reads and coercions that cannot raise *)

Lemma GetV_read v k : isNullish v = false -> GetV v k = Normal (read v k).
Proof. unfold GetV, read. destruct v; simpl; try discriminate; reflexivity. Qed.

Lemma isError_not_nullish e : isError e = true -> isNullish e = false.
Proof. destruct e; simpl; try discriminate; reflexivity. Qed.

Lemma mapM_Normal {A B} (f : A -> completion B) (g : A -> B) l :
  Forall (fun x => f x = Normal (g x)) l -> mapM f l = Normal (map g l).
Proof.
  induction 1 as [|x t Hx _ IH]; simpl; [reflexivity|].
  now rewrite Hx, IH.
Qed.

Lemma Forall_filter {A} (p : A -> bool) l :
  Forall (fun x => p x = true) (filter p l).
Proof.
  apply Forall_forall. intros x Hx. now apply filter_In in Hx.
Qed.

Lemma String_concat_cons sep x y l :
  String.concat sep (x :: y :: l) = x ++ sep ++ String.concat sep (y :: l).
Proof. reflexivity. Qed.

Lemma mapError_normalized e :
  isNullish e = false -> mapError e = Normal (normalized e).
Proof.
  intros H. unfold mapError. rewrite !GetV_read by exact H. reflexivity.
Qed.

Lemma mapM_mapError args :
  mapM mapError (filter isError args) =
  Normal (map normalized (filter isError args)).
Proof.
  apply mapM_Normal. eapply Forall_impl; [|apply Forall_filter].
  intros e He. now apply mapError_normalized, isError_not_nullish.
Qed.

Lemma first_isError args :
  filter isError args <> [] -> isError (first (filter isError args)) = true.
Proof.
  pose proof (Forall_filter isError args) as H.
  destruct (filter isError args) as [|e t]; [congruence|].
  intros _. now inversion H.
Qed.

Lemma serializeArg_fragment a :
  isMessageArg a = true -> serializeArg a = Normal (VStr (fragmentText a)).
Proof.
  destruct a as [| |[]|[]|s|l|p ps]; simpl; try discriminate; reflexivity.
Qed.

Lemma join_strings sep (texts : list string) :
  join sep (map VStr texts) = String.concat sep texts.
Proof.
  unfold join. rewrite map_map. simpl. now rewrite map_id.
Qed.

Lemma serializeArgs_fragments l :
  Forall (fun a => isMessageArg a = true) l ->
  serializeArgs l = Normal (renderedMessage l).
Proof.
  intros H. unfold serializeArgs.
  rewrite (mapM_Normal serializeArg (fun a => VStr (fragmentText a))).
  - simpl. rewrite <- (map_map fragmentText VStr). now rewrite join_strings.
  - eapply Forall_impl; [|exact H]. apply serializeArg_fragment.
Qed.

Lemma attachMessage_messageStep args entry :
  attachMessage (filter isMessageArg args) entry =
  Normal (messageStep (filter isMessageArg args) entry).
Proof.
  unfold attachMessage, messageStep.
  rewrite serializeArgs_fragments by apply Forall_filter. simpl.
  now destruct (String.eqb _ "").
Qed.

Lemma attachErrors_errorStep args entry :
  attachErrors (filter isError args) entry =
  Normal (errorStep (filter isError args) entry).
Proof.
  unfold attachErrors, errorStep.
  pose proof (mapM_mapError args) as HM.
  pose proof (first_isError args) as HF.
  destruct (filter isError args) as [|e [|e' t]] eqn:E.
  - reflexivity.
  - assert (He : isNullish e = false)
      by (apply isError_not_nullish, HF; discriminate).
    unfold first. cbn [nth List.length Nat.ltb Nat.leb].
    rewrite (mapError_normalized e He). reflexivity.
  - assert (He : isNullish e = false)
      by (apply isError_not_nullish, HF; discriminate).
    unfold first. cbn [nth List.length Nat.ltb Nat.leb].
    rewrite (mapError_normalized e He). cbn [bind].
    rewrite HM. reflexivity.
Qed.

(** Where no coercion raises, a call that passes the level check builds
    an entry. *)
Lemma buildEntry_entryOf now level args :
  buildEntry now level args = Normal (entryOf now level args).
Proof.
  unfold buildEntry. rewrite attachMessage_messageStep. simpl.
  apply attachErrors_errorStep.
Qed.

Lemma NoDup_mergedEntry now level args :
  NoDup (keys (mergedEntry now level args)).
Proof. apply NoDup_mergeObjects, NoDup_baseEntry. Qed.

Lemma NoDup_messageStep fragments entry :
  NoDup (keys entry) -> NoDup (keys (messageStep fragments entry)).
Proof.
  intros H. unfold messageStep. destruct (String.eqb _ ""); [exact H|].
  now apply NoDup_set.
Qed.

Lemma NoDup_errorStep errorArgs entry :
  NoDup (keys entry) -> NoDup (keys (errorStep errorArgs entry)).
Proof.
  intros H. unfold errorStep.
  destruct errorArgs as [|e [|e' t]]; [exact H| |]; repeat apply NoDup_set;
    exact H.
Qed.

Lemma NoDup_entryOf now level args : NoDup (keys (entryOf now level args)).
Proof.
  apply NoDup_errorStep, NoDup_messageStep, NoDup_mergedEntry.
Qed.

Lemma lookup_messageStep_other fragments entry k :
  ~ In k (messageKeys fragments) ->
  lookup k (messageStep fragments entry) = lookup k entry.
Proof.
  unfold messageKeys, messageStep.
  destruct (String.eqb _ ""); [reflexivity|].
  intros H. apply lookup_set_other. intros <-. apply H. now left.
Qed.

Lemma lookup_messageStep_message fragments entry :
  NoDup (keys entry) ->
  lookup "message" (messageStep fragments entry) =
  if String.eqb (renderedMessage fragments) "" then lookup "message" entry
  else Some (VStr (renderedMessage fragments)).
Proof.
  intros H. unfold messageStep.
  destruct (String.eqb _ ""); [reflexivity|].
  now apply lookup_set_same.
Qed.

Lemma lookup_errorStep_other errorArgs entry k :
  ~ In k (errorKeys errorArgs) ->
  lookup k (errorStep errorArgs entry) = lookup k entry.
Proof.
  unfold errorKeys, errorStep.
  destruct errorArgs as [|e [|e' t]]; [reflexivity| |]; simpl; intros H;
    rewrite !lookup_set_other; try reflexivity; intros <-; apply H; tauto.
Qed.

Lemma lookup_mergedEntry now level args k :
  lookup k (mergedEntry now level args) =
  match lookup k (contextFields (filter isObjectArg args)) with
  | Some x => Some x
  | None => lookup k (baseEntry now level)
  end.
Proof. apply lookup_mergeObjects, NoDup_baseEntry. Qed.

(* ================================================================== *)
(** * Properties of the logger *)
(* ================================================================== *)

(** ** Levels and the logger state *)

Lemma isLogLevel_spec s : isLogLevel (Some s) = true <-> In s LogLevels.
Proof.
  split.
  - unfold isLogLevel, hasOwnProperty. intros H.
    destruct (lookup s LEVELS) as [r|] eqn:E; [|discriminate].
    apply lookup_Some_In in E. simpl in E.
    repeat (destruct E as [[= <- _]|E]; [simpl; tauto|]). destruct E.
  - simpl. intros H.
    repeat (destruct H as [<-|H]; [reflexivity|]). destruct H.
Qed.

Lemma isLogLevel_false s : isLogLevel (Some s) = false <-> ~ In s LogLevels.
Proof.
  rewrite <- isLogLevel_spec. destruct (isLogLevel (Some s)); split;
    congruence.
Qed.

Lemma rank_defined s : In s LogLevels -> exists r, lookup s LEVELS = Some r.
Proof.
  simpl. intros H.
  repeat (destruct H as [<-|H]; [eexists; reflexivity|]). destruct H.
Qed.

Lemma constructor_valid x :
  In (StandardLogger.logLevel (StandardLogger.constructor x)) LogLevels.
Proof.
  unfold StandardLogger.constructor. destruct x as [s|]; [|simpl; tauto].
  destruct (truthy (VStr s)); [|simpl; tauto].
  destruct (isLogLevel (Some s)) eqn:E; [|simpl; tauto].
  now apply isLogLevel_spec.
Qed.

Lemma setLogLevel_valid this level :
  In (StandardLogger.logLevel this) LogLevels ->
  In (StandardLogger.logLevel (fst (StandardLogger.setLogLevel this level)))
     LogLevels.
Proof.
  intros H. unfold StandardLogger.setLogLevel.
  destruct (isLogLevel level) eqn:E; [|exact H].
  destruct level as [s|]; [|exact H]. now apply isLogLevel_spec.
Qed.

(** The threshold of a logger is always one of the five levels. *)
Lemma reachable_valid this :
  StandardLogger.reachable this ->
  In (StandardLogger.logLevel this) LogLevels.
Proof.
  induction 1 as [x|this level _ IH].
  - apply constructor_valid.
  - now apply setLogLevel_valid.
Qed.

Lemma method_logAt L m :
  StandardLogger.method L = Some m ->
  In L LogLevels /\
  forall this now args out,
    m this now args out = logAt now (StandardLogger.logLevel this) L args out.
Proof.
  unfold StandardLogger.method.
  repeat match goal with
         | |- context [String.eqb L ?x] =>
             destruct (String.eqb_spec L x) as [->|_];
             [intros [= <-]; split; [simpl; tauto|reflexivity]|]
         end.
  intros H. discriminate H.
Qed.

Lemma logAt_gated now cur L args out :
  gt (lookup L LEVELS) (lookup cur LEVELS) = true ->
  logAt now cur L args out = Normal out.
Proof. unfold logAt. now intros ->. Qed.

Lemma logAt_emits now cur L args out :
  gt (lookup L LEVELS) (lookup cur LEVELS) = false ->
  logAt now cur L args out =
  Normal (emit (sinkOf L) (JSON_stringify_record (entryOf now L args)) out).
Proof.
  unfold logAt. intros ->. now rewrite buildEntry_entryOf.
Qed.

Lemma not_oneMoreLine_same out : ~ oneMoreLine out (Normal out).
Proof.
  intros (m & line & H). injection H as H.
  apply (f_equal (@List.length _)) in H. rewrite length_app in H.
  simpl in H. lia.
Qed.

(** C7. [setLogLevel] with a level that is not one of the five names (or
    with no level) raises an error whose message is "Invalid log level: "
    followed by the value, and the logger is left as it was, so every
    later per-level call behaves as before; with one of the five names it
    returns and the threshold is that name. *)
Theorem C7_setLogLevel :
  forall this,
    (forall s, ~ In s LogLevels ->
       StandardLogger.setLogLevel this (Some s) =
       (this, Throw (Error ("Invalid log level: " ++ s))) /\
       forall L m now args out,
         StandardLogger.method L = Some m ->
         m (fst (StandardLogger.setLogLevel this (Some s))) now args out =
         m this now args out) /\
    StandardLogger.setLogLevel this None =
      (this, Throw (Error "Invalid log level: undefined")) /\
    (forall s, In s LogLevels ->
       snd (StandardLogger.setLogLevel this (Some s)) = Normal tt /\
       StandardLogger.logLevel
         (fst (StandardLogger.setLogLevel this (Some s))) = s).
Proof.
  intros this. split; [|split].
  - intros s Hs. apply isLogLevel_false in Hs.
    unfold StandardLogger.setLogLevel. rewrite Hs. simpl.
    split; reflexivity.
  - reflexivity.
  - intros s Hs. apply isLogLevel_spec in Hs.
    unfold StandardLogger.setLogLevel. rewrite Hs. simpl.
    split; reflexivity.
Qed.

(** C8. The constructor is a total function (it has no abrupt
    completion): given one of the five names the threshold is that name,
    given any other string or no argument the threshold is [warn]. *)
Theorem C8_constructor :
  (forall s, In s LogLevels ->
     StandardLogger.logLevel (StandardLogger.constructor (Some s)) = s) /\
  (forall s, ~ In s LogLevels ->
     StandardLogger.logLevel (StandardLogger.constructor (Some s)) = "warn") /\
  StandardLogger.logLevel (StandardLogger.constructor None) = "warn".
Proof.
  split; [|split].
  - intros s Hs. simpl in Hs.
    repeat (destruct Hs as [<-|Hs]; [reflexivity|]). destruct Hs.
  - intros s Hs. apply isLogLevel_false in Hs.
    unfold StandardLogger.constructor. rewrite Hs.
    now rewrite andb_false_r.
  - reflexivity.
Qed.

(* ------------------------------------------------------------------ *)
(** ** Classification of the arguments *)

Lemma typeTag_eqb_spec a b : reflect (a = b) (typeTag_eqb a b).
Proof. destruct a, b; simpl; constructor; congruence. Qed.

Lemma isNull_spec a : reflect (a = VNull) (isNull a).
Proof. destruct a; simpl; constructor; congruence. Qed.

Lemma isError_errorLike a : isError a = true <-> errorLike a.
Proof.
  unfold isError, errorLike.
  rewrite orb_true_iff, !andb_true_iff, negb_true_iff.
  destruct (typeTag_eqb_spec (typeof a) TObject),
           (isNull_spec a); intuition congruence.
Qed.

Lemma isObjectArg_contextObject a :
  isObjectArg a = true <-> contextObject a.
Proof.
  unfold isObjectArg, contextObject.
  rewrite !andb_true_iff, !negb_true_iff, <- isError_errorLike.
  destruct (typeTag_eqb_spec (typeof a) TObject),
           (isNull_spec a), (isError a); intuition congruence.
Qed.

Lemma isMessageArg_messageFragment a :
  isMessageArg a = true <-> messageFragment a.
Proof.
  unfold isMessageArg, messageFragment.
  rewrite orb_true_iff, negb_true_iff.
  destruct (typeTag_eqb_spec (typeof a) TObject),
           (isNull_spec a); intuition congruence.
Qed.

(** Each argument is in exactly one group. *)
Lemma one_group a :
  (isError a = true /\ isObjectArg a = false /\ isMessageArg a = false) \/
  (isError a = false /\ isObjectArg a = true /\ isMessageArg a = false) \/
  (isError a = false /\ isObjectArg a = false /\ isMessageArg a = true).
Proof.
  unfold isObjectArg, isMessageArg.
  destruct a as [| |b|n|s|l|[|n] ps]; simpl; try tauto;
    destruct (isError _); simpl; tauto.
Qed.

(** Case analysis on the group of an argument. *)
Ltac by_group a :=
  let E := fresh "E" in
  let O := fresh "O" in
  let M := fresh "M" in
  destruct (one_group a) as [(E & O & M)|[(E & O & M)|(E & O & M)]];
  rewrite ?E, ?O, ?M in *.

Lemma classified_filters args :
  classified args (filter isError args) (filter isObjectArg args)
             (filter isMessageArg args).
Proof.
  induction args as [|a t IH]; simpl; [constructor|].
  by_group a.
  - apply classified_error; [now apply isError_errorLike|exact IH].
  - apply classified_object; [now apply isObjectArg_contextObject|exact IH].
  - apply classified_message;
      [now apply isMessageArg_messageFragment|exact IH].
Qed.

Lemma classified_unique args es os ms :
  classified args es os ms ->
  es = filter isError args /\ os = filter isObjectArg args /\
  ms = filter isMessageArg args.
Proof.
  induction 1 as [|a args es os ms Ha _ (-> & -> & ->)
                  |a args es os ms Ha _ (-> & -> & ->)
                  |a args es os ms Ha _ (-> & -> & ->)]; simpl.
  - tauto.
  - apply isError_errorLike in Ha. by_group a; try congruence. tauto.
  - apply isObjectArg_contextObject in Ha. by_group a; try congruence. tauto.
  - apply isMessageArg_messageFragment in Ha.
    by_group a; try congruence. tauto.
Qed.

Lemma classified_Permutation args es os ms :
  classified args es os ms -> Permutation (es ++ os ++ ms)%list args.
Proof.
  induction 1 as [|a args es os ms _ _ IH|a args es os ms _ _ IH
                  |a args es os ms _ _ IH]; simpl.
  - constructor.
  - now constructor.
  - symmetry. apply Permutation_cons_app with (l1 := es). now symmetry.
  - symmetry.
    rewrite app_assoc. apply Permutation_cons_app. rewrite <- app_assoc.
    now symmetry.
Qed.

(** C2. The three filters of [logAt] classify the arguments: walking the
    list from the left, each argument is appended to exactly one of the
    error sequence, the context sequence and the fragment sequence,
    according to its group (so each sequence keeps the original relative
    order and together they are a rearrangement of the list); no other
    triple of sequences classifies the list; the groups exclude one
    another, and in particular an error-like value is never a context
    object. *)
Theorem C2_classification_partitions :
  forall args,
    let es := filter isError args in
    let os := filter isObjectArg args in
    let ms := filter isMessageArg args in
    classified args es os ms /\
    (forall es' os' ms',
        classified args es' os' ms' -> es' = es /\ os' = os /\ ms' = ms) /\
    Permutation (es ++ os ++ ms)%list args /\
    (forall a, (errorLike a /\ ~ contextObject a /\ ~ messageFragment a) \/
               (~ errorLike a /\ contextObject a /\ ~ messageFragment a) \/
               (~ errorLike a /\ ~ contextObject a /\ messageFragment a)) /\
    (forall a, In a es -> ~ In a os /\ ~ In a ms) /\
    (forall a, In a os -> ~ In a ms).
Proof.
  intros args es os ms. subst es os ms.
  split; [apply classified_filters|].
  split; [intros es' os' ms'; apply classified_unique|].
  split; [apply classified_Permutation, classified_filters|].
  split.
  - intros a. rewrite <- isError_errorLike, <- isObjectArg_contextObject,
      <- isMessageArg_messageFragment.
    by_group a; intuition congruence.
  - split.
    + intros a Ha. apply filter_In in Ha. destruct Ha as [_ Ha].
      split; intros Hb; apply filter_In in Hb; destruct Hb as [_ Hb];
        by_group a; congruence.
    + intros a Ha. apply filter_In in Ha. destruct Ha as [_ Ha].
      intros Hb; apply filter_In in Hb; destruct Hb as [_ Hb];
        by_group a; congruence.
Qed.

(* ------------------------------------------------------------------ *)
(** ** The entry of a call that passes the level check *)

Lemma contextFields_app l1 l2 :
  contextFields (l1 ++ l2) = (contextFields l1 ++ contextFields l2)%list.
Proof. apply flat_map_app. Qed.

Lemma lookup_contextFields_None objs k :
  (forall o, In o objs -> lookup k (ownEnumerable o) = None) ->
  lookup k (contextFields objs) = None.
Proof.
  induction objs as [|o t IH]; intros H; [reflexivity|].
  change (contextFields (o :: t))
    with (ownEnumerable o ++ contextFields t)%list.
  rewrite lookup_app, IH by (intros o' Ho'; apply H; now right).
  apply H. now left.
Qed.

(** Among the object arguments the last owner of a key decides. *)
Lemma lookup_contextFields_last objs pre o post k v :
  objs = (pre ++ o :: post)%list ->
  lookup k (ownEnumerable o) = Some v ->
  (forall o', In o' post -> lookup k (ownEnumerable o') = None) ->
  lookup k (contextFields objs) = Some v.
Proof.
  intros -> Ho Hpost. rewrite contextFields_app, lookup_app.
  change (contextFields (o :: post))
    with (ownEnumerable o ++ contextFields post)%list.
  rewrite lookup_app, (lookup_contextFields_None post k Hpost), Ho.
  reflexivity.
Qed.

Lemma filter_filter_impl {A} (p q : A -> bool) l :
  (forall a, p a = true -> q a = true) ->
  filter p (filter q l) = filter p l.
Proof.
  intros H. induction l as [|a t IH]; simpl; [reflexivity|].
  destruct (q a) eqn:Q; simpl.
  - now rewrite IH.
  - destruct (p a) eqn:P; [|exact IH]. apply H in P. congruence.
Qed.

Lemma filter_filter_none {A} (p q : A -> bool) l :
  (forall a, q a = true -> p a = false) ->
  filter p (filter q l) = [].
Proof.
  intros H. induction l as [|a t IH]; simpl; [reflexivity|].
  destruct (q a) eqn:Q; simpl; [|exact IH].
  now rewrite (H a Q).
Qed.

Lemma lookup_entryOf_unwritten now level args k :
  ~ In k (messageKeys (filter isMessageArg args)
          ++ errorKeys (filter isError args))%list ->
  lookup k (entryOf now level args) =
  match lookup k (contextFields (filter isObjectArg args)) with
  | Some v => Some v
  | None => lookup k (baseEntry now level)
  end.
Proof.
  intros H. unfold entryOf.
  rewrite lookup_errorStep_other, lookup_messageStep_other.
  - apply lookup_mergedEntry.
  - intros Hk. apply H, in_or_app. now left.
  - intros Hk. apply H, in_or_app. now right.
Qed.


(* ------------------------------------------------------------------ *)
(** ** The two revisions of [logAt] *)

Lemma pickError_picked e :
  isNullish e = false -> Part001.pickError e = Normal (picked e).
Proof.
  intros H. unfold Part001.pickError. rewrite !GetV_read by exact H.
  reflexivity.
Qed.

Lemma part001_buildEntry_entryOf now level args :
  Part001.buildEntry now level args = Normal (part001_entryOf now level args).
Proof.
  unfold Part001.buildEntry, part001_entryOf, entryBeforeErrors.
  rewrite attachMessage_messageStep. simpl.
  unfold Part001.attachErrors.
  assert (HM : mapM Part001.pickError (filter isError args)
               = Normal (map picked (filter isError args))).
  { apply mapM_Normal. eapply Forall_impl; [|apply Forall_filter].
    intros e He. now apply pickError_picked, isError_not_nullish. }
  destruct (filter isError args) as [|e t]; [reflexivity|].
  cbn [List.length Nat.ltb Nat.leb]. rewrite HM. reflexivity.
Qed.

(** C3, as stated, fails: on a system error the earlier revision drops
    the [code] that normalization keeps. *)
Lemma C3_errors_array_not_normalized : ~ errors_array_is_normalized.
Proof.
  intros H.
  destruct (H 0%Z "error" [systemError]) as (entry & Hb & He).
  - discriminate.
  - rewrite part001_buildEntry_entryOf in Hb. injection Hb as <-.
    vm_compute in He. discriminate He.
Qed.

(* ================================================================== *)
(** * Parsing what [JSON.stringify] wrote *)
(* ================================================================== *)

Lemma string_app_assoc (a b c : string) : (a ++ b) ++ c = a ++ (b ++ c).
Proof. induction a; simpl; congruence. Qed.

Lemma string_app_empty (a : string) : a ++ "" = a.
Proof. induction a; simpl; congruence. Qed.

Lemma string_length_app (a b : string) :
  String.length (a ++ b) = (String.length a + String.length b)%nat.
Proof. induction a; simpl; congruence. Qed.

(** A string literal is read back as the string it quotes. *)
Lemma parse_chars_escape s rest :
  parse_chars (escape s ++ String dquote rest) = Some (s, rest).
Proof.
  induction s as [|c r IH].
  - reflexivity.
  - cbn [escape]. rewrite string_app_assoc.
    destruct c as [[] [] [] [] [] [] [] []];
      match goal with
      | |- context [escapeChar ?c] =>
          let x := eval vm_compute in (escapeChar c) in
          change (escapeChar c) with x
      end;
      cbn [append]; unfold parse_chars; fold parse_chars;
      cbn -[parse_chars escape append]; rewrite IH; reflexivity.
Qed.

Lemma parse_chars_quote s rest :
  exists body,
    quote s ++ rest = String dquote body /\
    parse_chars body = Some (s, rest).
Proof.
  exists (escape s ++ String dquote rest). split.
  - unfold quote. simpl. now rewrite string_app_assoc.
  - apply parse_chars_escape.
Qed.

Lemma parse_digits_string_of_uint u rest :
  stops rest ->
  parse_digits (NilEmpty.string_of_uint u ++ rest) = (u, rest).
Proof.
  intros H. induction u; cbn [NilEmpty.string_of_uint append];
    try (cbn [parse_digits]; change (digitOf _) with (Some D0) || idtac;
         cbn; rewrite IHu; reflexivity).
  destruct rest as [|c r]; [reflexivity|].
  simpl in H. cbn [parse_digits]. now rewrite H.
Qed.

Lemma numeric_dispatch c :
  numeric c ->
  Ascii.eqb c "n" = false /\ Ascii.eqb c "t" = false /\
  Ascii.eqb c "f" = false /\ Ascii.eqb c dquote = false /\
  Ascii.eqb c "[" = false /\ Ascii.eqb c "{" = false /\
  Ascii.eqb c "]" = false /\ Ascii.eqb c "}" = false.
Proof.
  intros [->|H]; [repeat split; reflexivity|].
  destruct c as [[] [] [] [] [] [] [] []];
    try (exfalso; apply H; reflexivity); repeat split; reflexivity.
Qed.

Lemma string_of_uint_head u :
  u <> Nil ->
  exists c r, NilEmpty.string_of_uint u = String c r /\ digitOf c <> None.
Proof.
  destruct u; [congruence|..]; intros _; simpl;
    eexists _, _; (split; [reflexivity|discriminate]).
Qed.

Lemma NilZero_string_of_uint u :
  u <> Nil -> NilZero.string_of_uint u = NilEmpty.string_of_uint u.
Proof. destruct u; [congruence|..]; reflexivity. Qed.

Lemma to_int_nonnil z :
  match Z.to_int z with Pos u | Neg u => u <> Nil end.
Proof.
  destruct z; simpl; [discriminate|..]; apply DecimalPos.Unsigned.to_uint_nonnil.
Qed.

Lemma Z_to_string_head z :
  exists c r, Z_to_string z = String c r /\ numeric c.
Proof.
  unfold Z_to_string. pose proof (to_int_nonnil z) as H.
  destruct (Z.to_int z) as [u|u]; simpl.
  - rewrite NilZero_string_of_uint by exact H.
    destruct (string_of_uint_head u H) as (c & r & -> & Hc).
    exists c, r. split; [reflexivity|now right].
  - eexists _, _. split; [reflexivity|now left].
Qed.

Lemma parse_number_render z rest :
  stops rest ->
  parse_number (Z_to_string z ++ rest) = Some (JNum z, rest).
Proof.
  intros Hrest. unfold Z_to_string.
  pose proof (to_int_nonnil z) as H. pose proof (DecimalZ.of_to z) as Hz.
  destruct (Z.to_int z) as [u|u]; simpl NilZero.string_of_int.
  - rewrite NilZero_string_of_uint by exact H.
    destruct (string_of_uint_head u H) as (c & r & E & Hc).
    pose proof (parse_digits_string_of_uint u rest Hrest) as Hp.
    rewrite E in *. cbn [append] in *. unfold parse_number.
    destruct (Ascii.eqb_spec c "-") as [->|_];
      [exfalso; apply Hc; reflexivity|].
    rewrite Hp. destruct u; [congruence|..]; now rewrite Hz.
  - rewrite NilZero_string_of_uint by exact H.
    cbn [append]. unfold parse_number. rewrite Ascii.eqb_refl.
    rewrite (parse_digits_string_of_uint u rest Hrest).
    destruct u; [congruence|..]; now rewrite Hz.
Qed.

Lemma render_head j :
  exists c r, render j = String c r /\
              Ascii.eqb c "]" = false /\ Ascii.eqb c "}" = false.
Proof.
  destruct j as [|[]|z|s|l|l]; simpl;
    try (eexists _, _; repeat split; reflexivity).
  destruct (Z_to_string_head z) as (c & r & -> & Hc).
  exists c, r. split; [reflexivity|].
  now destruct (numeric_dispatch c Hc) as (_ & _ & _ & _ & _ & _ & ? & ?).
Qed.

Lemma stops_comma r : stops (String "," r).
Proof. reflexivity. Qed.

Lemma stops_bracket r : stops (String "]" r).
Proof. reflexivity. Qed.

Lemma stops_brace r : stops (String "}" r).
Proof. reflexivity. Qed.

Section RoundTrip.

(** Elements, given that each of them is read back. *)
Lemma parse_elems_render (l : list json) :
  Forall (fun j => forall fuel rest,
              (jsize j <= fuel)%nat -> stops rest ->
              parse_value fuel (render j ++ rest) = Some (j, rest)) l ->
  l <> [] ->
  forall fuel rest,
    (fold_right (fun x n => S (jsize x + n)) 0%nat l <= fuel)%nat ->
    parse_elems fuel (String.concat "," (map render l) ++ String "]" rest)
    = Some (l, rest).
Proof.
  induction 1 as [|x t Hx Ht IH]; [congruence|].
  intros _ fuel rest Hfuel. cbn [fold_right] in Hfuel.
  destruct fuel as [|fuel]; [lia|]. cbn [parse_elems].
  destruct t as [|y t].
  - cbn [map String.concat].
    rewrite Hx by (try apply stops_bracket; lia). reflexivity.
  - cbn [map]. rewrite String_concat_cons, !string_app_assoc.
    cbn [append]. rewrite Hx by (try apply stops_comma; lia).
    cbn. change (String.concat "," (render y :: map render t))
      with (String.concat "," (map render (y :: t))).
    rewrite IH; [reflexivity|discriminate|].
    cbn [fold_right] in *. lia.
Qed.

Lemma parse_members_render (l : list (string * json)) :
  Forall (fun m => forall fuel rest,
              (jsize (snd m) <= fuel)%nat -> stops rest ->
              parse_value fuel (render (snd m) ++ rest)
              = Some (snd m, rest)) l ->
  l <> [] ->
  forall fuel rest,
    (fold_right (fun m n => S (jsize (snd m) + n)) 0%nat l <= fuel)%nat ->
    parse_members fuel
      (String.concat "," (map renderMember l) ++ String "}" rest)
    = Some (l, rest).
Proof.
  induction 1 as [|[k x] t Hx Ht IH]; [congruence|].
  intros _ fuel rest Hfuel. cbn [fold_right snd] in Hfuel.
  destruct fuel as [|fuel]; [lia|]. cbn [snd] in Hx.
  destruct t as [|y t].
  - cbn [map String.concat]. unfold renderMember. cbn [fst snd].
    rewrite !string_app_assoc.
    destruct (parse_chars_quote k (":" ++ render x ++ String "}" rest))
      as (body & -> & Hbody).
    cbn [parse_members]. change (Ascii.eqb dquote dquote) with true.
    cbv iota. rewrite Hbody. cbn [append].
    change (Ascii.eqb ":" ":") with true. cbv iota.
    rewrite Hx by (try apply stops_brace; lia). reflexivity.
  - cbn [map]. rewrite String_concat_cons, !string_app_assoc.
    unfold renderMember at 1. cbn [fst snd].
    rewrite !string_app_assoc.
    destruct (parse_chars_quote k
                (":" ++ render x ++ "," ++
                 String.concat "," (renderMember y :: map renderMember t)
                 ++ String "}" rest))
      as (body & -> & Hbody).
    cbn [parse_members]. change (Ascii.eqb dquote dquote) with true.
    cbv iota. rewrite Hbody. cbn [append].
    change (Ascii.eqb ":" ":") with true. cbv iota.
    rewrite Hx by (try apply stops_comma; lia).
    change (Ascii.eqb "," ",") with true. cbv iota.
    change (String.concat "," (renderMember y :: map renderMember t))
      with (String.concat "," (map renderMember (y :: t))).
    rewrite IH; [reflexivity|discriminate|].
    cbn [fold_right snd] in *. lia.
Qed.

End RoundTrip.

Lemma render_object l rest :
  render (JObj l) ++ rest =
  String "{" (String.concat "," (map renderMember l) ++ String "}" rest).
Proof.
  cbn [render]. rewrite !string_app_assoc. reflexivity.
Qed.

(** Every rendered value is read back, whatever follows it, as long as
    what follows is not a digit. *)
Lemma parse_value_render j :
  forall fuel rest,
    (jsize j <= fuel)%nat -> stops rest ->
    parse_value fuel (render j ++ rest) = Some (j, rest).
Proof.
  induction j as [|b|z|s|l IH|l IH] using json_ind;
    intros fuel rest Hfuel Hrest;
    (destruct fuel as [|fuel]; [simpl in Hfuel; lia|]).
  - reflexivity.
  - destruct b; reflexivity.
  - cbn [render].
    destruct (Z_to_string_head z) as (c & r & E & Hc).
    pose proof (parse_number_render z rest Hrest) as Hp.
    rewrite E in *. cbn [append] in *. cbn [parse_value].
    destruct (numeric_dispatch c Hc) as (-> & -> & -> & -> & -> & -> & _).
    exact Hp.
  - cbn [render].
    destruct (parse_chars_quote s rest) as (body & -> & Hbody).
    cbn [parse_value]. change (Ascii.eqb dquote "n") with false.
    change (Ascii.eqb dquote "t") with false.
    change (Ascii.eqb dquote "f") with false.
    change (Ascii.eqb dquote dquote) with true. cbv iota.
    now rewrite Hbody.
  - cbn [render]. rewrite !string_app_assoc. cbn [append parse_value].
    change (Ascii.eqb "[" "n") with false.
    change (Ascii.eqb "[" "t") with false.
    change (Ascii.eqb "[" "f") with false.
    change (Ascii.eqb "[" dquote) with false.
    change (Ascii.eqb "[" "[") with true. cbv iota.
    destruct l as [|x t]; [reflexivity|].
    assert (Hp := parse_elems_render (x :: t) IH).
    cbn [jsize] in Hfuel.
    specialize (Hp ltac:(discriminate) fuel rest ltac:(lia)).
    set (text := String.concat "," (map render (x :: t)) ++ String "]" rest)
      in *.
    assert (Hhead : exists c r, text = String c r /\
                                Ascii.eqb c "]" = false).
    { subst text. cbn [map].
      destruct (render_head x) as (c & r & E & Hb & _).
      destruct t as [|y t].
      - cbn [String.concat]. rewrite E. cbn [append]. now eexists _, _.
      - cbn [map]. rewrite String_concat_cons, !string_app_assoc, E.
        cbn [append]. now eexists _, _. }
    destruct Hhead as (c & r & E & Hb).
    rewrite E, Hb, <- E, Hp. reflexivity.
  - rewrite render_object. cbn [parse_value].
    change (Ascii.eqb "{" "n") with false.
    change (Ascii.eqb "{" "t") with false.
    change (Ascii.eqb "{" "f") with false.
    change (Ascii.eqb "{" dquote) with false.
    change (Ascii.eqb "{" "[") with false.
    change (Ascii.eqb "{" "{") with true. cbv iota.
    destruct l as [|[k x] t]; [reflexivity|].
    assert (Hp := parse_members_render ((k, x) :: t) IH).
    cbn [jsize] in Hfuel.
    specialize (Hp ltac:(discriminate) fuel rest ltac:(lia)).
    set (text := String.concat "," (map renderMember ((k, x) :: t))
                 ++ String "}" rest) in *.
    assert (Hhead : exists r, text = String dquote r).
    { subst text. cbn [map]. destruct t as [|y t].
      - cbn [String.concat]. unfold renderMember, quote. cbn [fst append].
        now eexists.
      - cbn [map]. rewrite String_concat_cons, !string_app_assoc.
        unfold renderMember at 1. unfold quote. cbn [fst append].
        now eexists. }
    destruct Hhead as (r & E).
    rewrite E. change (Ascii.eqb dquote "}") with false. cbv iota.
    rewrite <- E, Hp. reflexivity.
Qed.

Lemma jsize_elems_length (l : list json) :
  Forall (fun j => (jsize j <= String.length (render j))%nat) l ->
  (fold_right (fun x n => S (jsize x + n)) 0%nat l
   <= S (String.length (String.concat "," (map render l))))%nat.
Proof.
  induction 1 as [|x t Hx _ IH]; [simpl; lia|].
  cbn [fold_right map]. destruct t as [|y t].
  - cbn [map String.concat fold_right]. lia.
  - cbn [map] in *. rewrite String_concat_cons, !string_length_app.
    cbn [String.length]. cbn [fold_right] in *. lia.
Qed.

Lemma jsize_members_length (l : list (string * json)) :
  Forall (fun m => (jsize (snd m) <= String.length (render (snd m)))%nat) l ->
  (fold_right (fun m n => S (jsize (snd m) + n)) 0%nat l
   <= S (String.length (String.concat "," (map renderMember l))))%nat.
Proof.
  induction 1 as [|[k x] t Hx _ IH]; [simpl; lia|].
  cbn [fold_right map snd] in *. destruct t as [|y t].
  - cbn [map String.concat fold_right]. unfold renderMember. cbn [fst snd].
    rewrite !string_length_app. lia.
  - cbn [map] in *. rewrite String_concat_cons, !string_length_app.
    unfold renderMember at 1. cbn [fst snd].
    rewrite !string_length_app. cbn [String.length]. cbn [fold_right] in *.
    lia.
Qed.

Lemma jsize_length j : (jsize j <= String.length (render j))%nat.
Proof.
  induction j as [|b|z|s|l IH|l IH] using json_ind.
  - simpl. lia.
  - destruct b; simpl; lia.
  - cbn [jsize render]. destruct (Z_to_string_head z) as (c & r & -> & _).
    simpl. lia.
  - cbn [jsize render]. unfold quote. simpl. lia.
  - cbn [jsize render]. rewrite !string_length_app. cbn [String.length].
    pose proof (jsize_elems_length l IH). lia.
  - pose proof (render_object l "") as E. rewrite string_app_empty in E.
    rewrite E. cbn [jsize String.length]. rewrite string_length_app.
    cbn [String.length]. pose proof (jsize_members_length l IH). lia.
Qed.

(** Parsing is a left inverse of rendering. *)
Lemma JSON_parse_render j : JSON_parse (render j) = Some j.
Proof.
  unfold JSON_parse.
  rewrite <- (string_app_empty (render j)) at 2.
  rewrite parse_value_render; [reflexivity| |exact I].
  pose proof (jsize_length j). lia.
Qed.

(** The fields of a serialized record are the serialized fields of the
    record; a field whose value is [undefined] is left out. *)
Lemma lookup_toMembers (entry : Entry) k :
  NoDup (keys entry) ->
  lookup k (toMembers entry) =
  match lookup k entry with
  | Some v => toJSON v
  | None => None
  end.
Proof.
  induction entry as [|[k' v] t IH]; intros H; [reflexivity|].
  inversion H as [|? ? Hn Ht]; subst. specialize (IH Ht).
  cbn [toMembers lookup].
  destruct (String.eqb_spec k' k) as [->|ne].
  - apply lookup_None_iff in Hn. rewrite Hn in *.
    destruct (toJSON v) as [j|]; cbn [lookup]; rewrite IH;
      [now rewrite String.eqb_refl|reflexivity].
  - destruct (toJSON v) as [j|]; cbn [lookup]; rewrite IH.
    + destruct (String.eqb_spec k' k); [contradiction|].
      destruct (lookup k t) as [x|]; [now destruct (toJSON x)|reflexivity].
    + now destruct (lookup k t).
Qed.

(** [JSON.stringify(entry)] on an entry, an object whose properties are
    all enumerable. *)
Lemma JSON_stringify_VObject (entry : Entry) :
  JSON_stringify (VObject entry) = Some (JSON_stringify_record entry).
Proof.
  unfold JSON_stringify, JSON_stringify_record, VObject, literal.
  cbn [toJSON option_map]. do 3 f_equal.
  induction entry as [|[k v] t IH]; [reflexivity|].
  cbn [map toMembers fst snd penumerable pvalue pkey].
  rewrite IH. reflexivity.
Qed.

(* ------------------------------------------------------------------ *)
(** ** The timestamp *)

Lemma TimeWithinDay_range t : (0 <= TimeWithinDay t < msPerDay)%Z.
Proof. unfold TimeWithinDay, msPerDay. apply Z.mod_pos_bound. lia. Qed.

Lemma dayOfEra_range days : (0 <= dayOfEra days <= 146096)%Z.
Proof. unfold dayOfEra, eraOf. Z.div_mod_to_equations; lia. Qed.

Lemma yearOfEra_range days : (0 <= yearOfEra days <= 399)%Z.
Proof.
  unfold yearOfEra. pose proof (dayOfEra_range days). cbv zeta.
  Z.div_mod_to_equations; lia.
Qed.

Lemma dayOfYear_range days : (0 <= dayOfYear days <= 365)%Z.
Proof.
  unfold dayOfYear, yearOfEra. pose proof (dayOfEra_range days). cbv zeta.
  Z.div_mod_to_equations; lia.
Qed.

Lemma monthIndex_range days : (0 <= monthIndex days <= 11)%Z.
Proof.
  unfold monthIndex. pose proof (dayOfYear_range days).
  Z.div_mod_to_equations; lia.
Qed.

Lemma MonthFromTime_range t : (1 <= MonthFromTime t <= 12)%Z.
Proof.
  unfold MonthFromTime. cbv zeta. pose proof (monthIndex_range (Day t)).
  destruct (Z.ltb_spec (monthIndex (Day t)) 10); lia.
Qed.

Lemma DateFromTime_range t : (1 <= DateFromTime t <= 31)%Z.
Proof.
  unfold DateFromTime, monthIndex. cbv zeta.
  pose proof (dayOfYear_range (Day t)). Z.div_mod_to_equations; lia.
Qed.

Lemma HourFromTime_range t : (0 <= HourFromTime t <= 23)%Z.
Proof.
  unfold HourFromTime. pose proof (TimeWithinDay_range t).
  unfold msPerDay in *. Z.div_mod_to_equations; lia.
Qed.

Lemma MinFromTime_range t : (0 <= MinFromTime t <= 59)%Z.
Proof. unfold MinFromTime. Z.div_mod_to_equations; lia. Qed.

Lemma SecFromTime_range t : (0 <= SecFromTime t <= 59)%Z.
Proof. unfold SecFromTime. Z.div_mod_to_equations; lia. Qed.

Lemma YearFromTime_range t :
  (minFourDigitTime <= t <= maxFourDigitTime)%Z ->
  (0 <= YearFromTime t <= 9999)%Z.
Proof.
  intros Ht.
  assert (Hr : (-719528 <= Day t <= 2932896)%Z).
  { unfold Day, msPerDay, minFourDigitTime, maxFourDigitTime in *.
    Z.div_mod_to_equations; lia. }
  unfold YearFromTime, MonthFromTime. cbv zeta.
  clear Ht. generalize dependent (Day t). clear t. intros days Hr.
  pose proof (monthIndex_range days) as Hmp.
  pose proof (yearOfEra_range days) as Hy.
  pose proof (dayOfYear_range days) as Hd.
  pose proof (dayOfEra_range days) as He.
  assert (Hera : (-1 <= eraOf days <= 24)%Z)
    by (unfold eraOf; Z.div_mod_to_equations; lia).
  destruct (Z.ltb_spec (monthIndex days) 10) as [E|E].
  - destruct (Z.leb_spec (monthIndex days + 3) 2); [lia|].
    unfold monthIndex, dayOfYear, yearOfEra, dayOfEra, eraOf in *.
    cbv zeta in *. Z.div_mod_to_equations; lia.
  - destruct (Z.leb_spec (monthIndex days - 9) 2); [|lia].
    unfold monthIndex, dayOfYear, yearOfEra, dayOfEra, eraOf in *.
    cbv zeta in *. Z.div_mod_to_equations; lia.
Qed.

Lemma digit_cases n :
  exists k, (k < 10)%nat /\ Z.to_nat (n mod 10) = k /\
            digit n = ascii_of_nat (48 + k).
Proof.
  exists (Z.to_nat (n mod 10)). split; [|split; reflexivity].
  pose proof (Z.mod_pos_bound n 10 ltac:(lia)). lia.
Qed.

Lemma digit_isDigit n : isDigit (digit n) = true.
Proof.
  destruct (digit_cases n) as (k & Hk & _ & ->).
  do 10 (destruct k as [|k]; [reflexivity|]). lia.
Qed.

Lemma nat_of_digit n :
  (nat_of_ascii (digit n) - 48)%nat = Z.to_nat (n mod 10).
Proof.
  destruct (digit_cases n) as (k & Hk & <- & ->).
  rewrite nat_ascii_embedding by lia. lia.
Qed.

Lemma twoDigits_pad2 n :
  (0 <= n < 100)%Z -> twoDigits (digit (n / 10)) (digit n) = Z.to_nat n.
Proof.
  intros H. unfold twoDigits. rewrite !nat_of_digit.
  Z.div_mod_to_equations. lia.
Qed.

(** Within the four-digit years [toISOString] prints an ISO-8601
    instant. *)
Lemma toISOString_isISOInstant t :
  (minFourDigitTime <= t <= maxFourDigitTime)%Z ->
  isISOInstant (toISOString t) = true.
Proof.
  intros Ht. pose proof (YearFromTime_range t Ht) as Hy.
  pose proof (MonthFromTime_range t) as Hm.
  pose proof (DateFromTime_range t) as Hd.
  pose proof (HourFromTime_range t) as Hh.
  pose proof (MinFromTime_range t) as Hn.
  pose proof (SecFromTime_range t) as Hs.
  unfold toISOString. cbv zeta.
  replace ((0 <=? YearFromTime t)%Z && (YearFromTime t <=? 9999)%Z)
    with true
    by (symmetry; apply andb_true_iff; split; apply Z.leb_le; lia).
  unfold isISOInstant.
  cbn [append pad4 pad3 pad2 list_ascii_of_string forallb].
  rewrite !digit_isDigit. cbn [andb].
  rewrite !twoDigits_pad2 by lia.
  change (Ascii.eqb "-" "-") with true. change (Ascii.eqb "T" "T") with true.
  change (Ascii.eqb ":" ":") with true. change (Ascii.eqb "." ".") with true.
  change (Ascii.eqb "Z" "Z") with true. cbn [andb].
  repeat (apply andb_true_iff; split); apply Nat.leb_le; lia.
Qed.

(* ------------------------------------------------------------------ *)
(** ** Parsing the emitted line *)



(* ================================================================== *)
(** * The properties on concrete calls *)
(* ================================================================== *)

(** A string, an error, an object and [null] go to their groups. *)
Lemma C2_classification_partitions_witness :
  classified
    [VStr "a"; newError "boom" "Error: boom"; VObject [("k", VNull)]; VNull]
    [newError "boom" "Error: boom"] [VObject [("k", VNull)]]
    [VStr "a"; VNull].
Proof.
  exact (proj1 (C2_classification_partitions
                  [VStr "a"; newError "boom" "Error: boom";
                   VObject [("k", VNull)]; VNull])).
Defined.

(** The level of the README that is not one. *)
Lemma C7_setLogLevel_witness :
  ~ In "invalid" LogLevels /\
  StandardLogger.setLogLevel (StandardLogger.constructor None)
    (Some "invalid")
  = (StandardLogger.constructor None,
     Throw (Error "Invalid log level: invalid")) /\
  In "debug" LogLevels /\
  StandardLogger.logLevel
    (fst (StandardLogger.setLogLevel (StandardLogger.constructor None)
            (Some "debug"))) = "debug".
Proof.
  assert (Hbad : ~ In "invalid" LogLevels)
    by (simpl; intuition discriminate).
  assert (Hgood : In "debug" LogLevels) by (simpl; tauto).
  destruct (C7_setLogLevel (StandardLogger.constructor None))
    as (Hinvalid & _ & Hvalid).
  split; [exact Hbad|].
  split; [exact (proj1 (Hinvalid "invalid" Hbad))|].
  split; [exact Hgood|].
  exact (proj2 (Hvalid "debug" Hgood)).
Defined.

Lemma C8_constructor_witness :
  In "debug" LogLevels /\ ~ In "verbose" LogLevels /\
  StandardLogger.logLevel (StandardLogger.constructor (Some "debug"))
    = "debug" /\
  StandardLogger.logLevel (StandardLogger.constructor (Some "verbose"))
    = "warn".
Proof.
  assert (Hbad : ~ In "verbose" LogLevels)
    by (simpl; intuition discriminate).
  assert (Hgood : In "debug" LogLevels) by (simpl; tauto).
  destruct C8_constructor as (Hvalid & Hinvalid & _).
  split; [exact Hgood|]. split; [exact Hbad|].
  split; [exact (Hvalid "debug" Hgood)|exact (Hinvalid "verbose" Hbad)].
Defined.



(* ================================================================== *)
(** * Further properties of the program *)
(* ================================================================== *)

(** ** Levels ([log.ts], lines 1 to 21) *)

(** X1. [isLogLevel] accepts exactly the strings of [LogLevels], and
    nothing when the level is [undefined]; [LogLevels] lists the keys of
    [LEVELS] by rank, the name at index [i] having rank [i]. *)
Theorem X1_isLogLevel_exact :
  (forall level,
     isLogLevel level = true <-> exists s, level = Some s /\ In s LogLevels) /\
  (forall s i,
     nth_error LogLevels i = Some s <-> lookup s LEVELS = Some (Z.of_nat i)).
Proof.
  split.
  - intros [s|]; split.
    + intros H. exists s. split; [reflexivity|now apply isLogLevel_spec].
    + intros (s' & [= <-] & H). now apply isLogLevel_spec.
    + discriminate.
    + intros (s' & H & _). discriminate H.
  - intros s i. split.
    + intros H.
      do 5 (destruct i as [|i]; [injection H as <-; reflexivity|]).
      destruct i; discriminate H.
    + intros H. pose proof (lookup_Some_In _ _ _ H) as Hin. simpl in Hin.
      repeat (destruct Hin as [[= <- Hi]|Hin];
              [apply (f_equal Z.to_nat) in Hi; rewrite Nat2Z.id in Hi;
               subst i; reflexivity|]).
      destruct Hin.
Qed.

(* ------------------------------------------------------------------ *)
(** ** The logger and its threshold ([log.ts], lines 31 to 64 and 107) *)

Lemma constructor_of_valid s :
  In s LogLevels ->
  StandardLogger.constructor (Some s) = {| StandardLogger.logLevel := s |}.
Proof.
  simpl. intros H.
  repeat (destruct H as [<-|H]; [reflexivity|]). destruct H.
Qed.





Lemma setLogLevels_snoc this levels level :
  setLogLevels this (levels ++ [level])
  = fst (StandardLogger.setLogLevel (setLogLevels this levels) level).
Proof. unfold setLogLevels. now rewrite fold_left_app. Qed.

(** X6. After any run of [setLogLevel] calls the threshold is the last
    level of the run that is one of the five names, and the threshold
    before the run when there is none: calls that raise change nothing,
    and the threshold stays one of the five names. *)
Theorem X6_last_valid_level_wins :
  forall this levels,
    StandardLogger.logLevel (setLogLevels this levels) =
      match lastLogLevel levels with
      | Some s => s
      | None => StandardLogger.logLevel this
      end /\
    (forall s, lastLogLevel levels = Some s -> In s LogLevels) /\
    (StandardLogger.reachable this ->
     StandardLogger.reachable (setLogLevels this levels) /\
     In (StandardLogger.logLevel (setLogLevels this levels)) LogLevels).
Proof.
  intros this levels.
  induction levels as [|level levels (IH1 & IH2 & IH3)] using rev_ind.
  - split; [reflexivity|]. split; [discriminate|].
    intros H. split; [exact H|now apply reachable_valid].
  - rewrite setLogLevels_snoc. unfold lastLogLevel in *.
    rewrite rev_app_distr. change (List.rev [level]) with [level].
    change ([level] ++ List.rev levels)%list with (level :: List.rev levels).
    cbn [find].
    unfold StandardLogger.setLogLevel.
    destruct (isLogLevel level) eqn:E; cbn [negb].
    + destruct level as [s|]; [|discriminate E]. cbn [fst].
      split; [reflexivity|]. split.
      * intros s' [= <-]. now apply isLogLevel_spec.
      * intros H. split.
        -- pose proof (StandardLogger.reach_set (setLogLevels this levels)
                         (Some s) (proj1 (IH3 H))) as Hr.
           unfold StandardLogger.setLogLevel in Hr. rewrite E in Hr.
           exact Hr.
        -- now apply isLogLevel_spec.
    + cbn [fst]. split; [exact IH1|]. split; [exact IH2|exact IH3].
Qed.

(** X7. Validating a level before constructing is redundant: a logger
    built from [isLogLevel(x) ? x : 'warn'] is the logger built from [x];
    a logger built from the threshold of a logger is that logger; setting
    a logger to its own threshold returns and changes nothing; and
    setting a logger to one of the five names gives the logger that the
    constructor builds from that name. *)
Theorem X7_constructor_and_setLogLevel_agree :
  (forall x,
     StandardLogger.constructor (if isLogLevel x then x else Some "warn")
     = StandardLogger.constructor x) /\
  (forall x,
     StandardLogger.constructor
       (Some (StandardLogger.logLevel (StandardLogger.constructor x)))
     = StandardLogger.constructor x) /\
  (forall this,
     StandardLogger.reachable this ->
     StandardLogger.setLogLevel this (Some (StandardLogger.logLevel this))
     = (this, Normal tt)) /\
  (forall this s,
     In s LogLevels ->
     fst (StandardLogger.setLogLevel this (Some s))
     = StandardLogger.constructor (Some s)).
Proof.
  split; [|split; [|split]].
  - intros [s|]; [|reflexivity].
    destruct (isLogLevel (Some s)) eqn:E; [reflexivity|].
    unfold StandardLogger.constructor at 2. rewrite E, andb_false_r.
    reflexivity.
  - intros x. rewrite constructor_of_valid by apply constructor_valid.
    now destruct (StandardLogger.constructor x).
  - intros this Hr. apply reachable_valid, isLogLevel_spec in Hr.
    unfold StandardLogger.setLogLevel. rewrite Hr. cbn [negb].
    now destruct this.
  - intros this s Hs. rewrite constructor_of_valid by exact Hs.
    apply isLogLevel_spec in Hs.
    unfold StandardLogger.setLogLevel. now rewrite Hs.
Qed.

Lemma X7_constructor_and_setLogLevel_agree_witness :
  StandardLogger.setLogLevel (StandardLogger.constructor None) (Some "warn")
  = (StandardLogger.constructor None, Normal tt).
Proof.
  exact (proj1 (proj2 (proj2 X7_constructor_and_setLogLevel_agree))
           (StandardLogger.constructor None)
           (StandardLogger.reach_new None)).
Defined.

Lemma X6_last_valid_level_wins_witness :
  StandardLogger.logLevel
    (setLogLevels (StandardLogger.constructor None)
       [Some "debug"; Some "invalid"; None]) = "debug".
Proof.
  exact (proj1 (X6_last_valid_level_wins (StandardLogger.constructor None)
                  [Some "debug"; Some "invalid"; None])).
Defined.

(* ------------------------------------------------------------------ *)
(** ** Texts joined by a separator *)

Lemma String_concat_app sep (l1 l2 : list string) :
  l1 <> [] -> l2 <> [] ->
  String.concat sep (l1 ++ l2)
  = String.concat sep l1 ++ sep ++ String.concat sep l2.
Proof.
  intros H1 H2. induction l1 as [|x t IH]; [congruence|].
  destruct t as [|y t].
  - destruct l2 as [|z l2]; [congruence|]. reflexivity.
  - change ((x :: y :: t) ++ l2)%list with (x :: y :: (t ++ l2))%list.
    rewrite !String_concat_cons.
    change (y :: (t ++ l2))%list with ((y :: t) ++ l2)%list.
    rewrite IH by discriminate. now rewrite !string_app_assoc.
Qed.

(* ------------------------------------------------------------------ *)
(** ** The entry ([log.ts], lines 109 to 136) *)

Lemma filter_app_groups args :
  let grouped := (filter isError args ++ filter isObjectArg args
                  ++ filter isMessageArg args)%list in
  filter isError grouped = filter isError args /\
  filter isObjectArg grouped = filter isObjectArg args /\
  filter isMessageArg grouped = filter isMessageArg args.
Proof.
  cbv zeta. rewrite !filter_app.
  rewrite (filter_filter_impl isError isError) by tauto.
  rewrite (filter_filter_impl isObjectArg isObjectArg) by tauto.
  rewrite (filter_filter_impl isMessageArg isMessageArg) by tauto.
  rewrite (filter_filter_none isError isObjectArg),
          (filter_filter_none isError isMessageArg),
          (filter_filter_none isObjectArg isError),
          (filter_filter_none isObjectArg isMessageArg),
          (filter_filter_none isMessageArg isError),
          (filter_filter_none isMessageArg isObjectArg);
    try (intros a Ha; by_group a; congruence).
  now rewrite !app_nil_r.
Qed.

(** X10. Only the order of the arguments within each group matters: a
    call builds the same entry as the call whose arguments are the
    error-like ones, then the objects, then the fragments, each group in
    its original order. *)
Theorem X10_entry_ignores_interleaving :
  forall now level args,
    buildEntry now level args =
    buildEntry now level
      (filter isError args ++ filter isObjectArg args
       ++ filter isMessageArg args)%list.
Proof.
  intros now level args. rewrite !buildEntry_entryOf. f_equal.
  unfold entryOf, mergedEntry.
  destruct (filter_app_groups args) as (-> & -> & ->). reflexivity.
Qed.


Lemma In_keys_set {V} k k' (v : V) o :
  In k (keys (set k' v o)) <-> k = k' \/ In k (keys o).
Proof.
  rewrite keys_set. destruct (in_dec string_dec k' (keys o)) as [i|n].
  - split; [tauto|]. intros [->|H]; assumption.
  - rewrite in_app_iff. simpl. split; intros H; intuition congruence.
Qed.

(* ------------------------------------------------------------------ *)
(** ** The emitted line ([log.ts], lines 138 to 149) *)

Lemma printable_app a b : printable (a ++ b) = printable a && printable b.
Proof.
  unfold printable. induction a as [|c a IH]; [reflexivity|].
  cbn [append list_ascii_of_string forallb]. now rewrite IH, andb_assoc.
Qed.

Lemma printable_escapeChar c : printable (escapeChar c) = true.
Proof. destruct c as [[] [] [] [] [] [] [] []]; vm_compute; reflexivity. Qed.

Lemma printable_escape s : printable (escape s) = true.
Proof.
  induction s as [|c s IH]; [reflexivity|].
  cbn [escape]. now rewrite printable_app, printable_escapeChar, IH.
Qed.

Lemma printable_quote s : printable (quote s) = true.
Proof.
  unfold quote. change (String dquote (escape s ++ String dquote ""))
    with (String dquote "" ++ (escape s ++ String dquote "")).
  now rewrite !printable_app, printable_escape.
Qed.

Lemma printable_string_of_uint u :
  printable (NilEmpty.string_of_uint u) = true.
Proof.
  induction u; [reflexivity|..]; cbn [NilEmpty.string_of_uint];
    match goal with
    | |- printable (String ?c ?s) = true =>
        change (String c s) with (String c "" ++ s)
    end;
    now rewrite printable_app, IHu.
Qed.

Lemma printable_Z_to_string z : printable (Z_to_string z) = true.
Proof.
  unfold Z_to_string. pose proof (to_int_nonnil z) as H.
  destruct (Z.to_int z) as [u|u]; simpl NilZero.string_of_int;
    rewrite NilZero_string_of_uint by exact H.
  - apply printable_string_of_uint.
  - change (String "-" (NilEmpty.string_of_uint u))
      with ("-" ++ NilEmpty.string_of_uint u).
    now rewrite printable_app, printable_string_of_uint.
Qed.

Lemma printable_concat sep l :
  printable sep = true ->
  Forall (fun s => printable s = true) l ->
  printable (String.concat sep l) = true.
Proof.
  intros Hsep. induction 1 as [|x t Hx Ht IH]; [reflexivity|].
  destruct t as [|y t]; [exact Hx|].
  rewrite String_concat_cons, !printable_app, Hx, Hsep. exact IH.
Qed.

Lemma printable_render j : printable (render j) = true.
Proof.
  induction j as [|b|z|s|l IH|l IH] using json_ind.
  - reflexivity.
  - now destruct b.
  - apply printable_Z_to_string.
  - apply printable_quote.
  - cbn [render]. rewrite !printable_app.
    rewrite printable_concat; [reflexivity|reflexivity|].
    apply Forall_map. exact IH.
  - cbn [render]. rewrite !printable_app.
    rewrite printable_concat; [reflexivity|reflexivity|].
    apply Forall_map. eapply Forall_impl; [|exact IH].
    intros [k x] Hx. cbn [fst snd] in *.
    now rewrite !printable_app, printable_quote, Hx.
Qed.

Lemma printable_chars s c :
  printable s = true -> In c (list_ascii_of_string s) ->
  (32 <= nat_of_ascii c)%nat.
Proof.
  unfold printable. rewrite forallb_forall. intros H Hc.
  now apply Nat.leb_le, H.
Qed.



(* ------------------------------------------------------------------ *)
(** ** Arrays and error-like objects among the arguments
       ([log.ts], lines 81 to 86 and 116 to 136) *)

Lemma to_uint_nonnil n : Nat.to_uint n <> Nil.
Proof.
  intros H. pose proof (DecimalNat.Unsigned.of_to n) as Hn.
  rewrite H in Hn. simpl in Hn. subst n. discriminate H.
Qed.

Lemma nat_to_string_inj i j : nat_to_string i = nat_to_string j -> i = j.
Proof.
  unfold nat_to_string.
  rewrite !NilZero_string_of_uint by apply to_uint_nonnil. intros H.
  assert (Hu : Nat.to_uint i = Nat.to_uint j).
  { pose proof (parse_digits_string_of_uint (Nat.to_uint i) "" I) as Hi.
    pose proof (parse_digits_string_of_uint (Nat.to_uint j) "" I) as Hj.
    rewrite H in Hi. rewrite Hi in Hj. now injection Hj. }
  now apply DecimalNat.Unsigned.to_uint_inj.
Qed.

Lemma nat_to_string_head i :
  exists c r, nat_to_string i = String c r /\ digitOf c <> None.
Proof.
  unfold nat_to_string.
  rewrite NilZero_string_of_uint by apply to_uint_nonnil.
  apply string_of_uint_head, to_uint_nonnil.
Qed.

Lemma lookup_indexed {V} (l : list V) n j :
  lookup (nat_to_string j) (indexed n l) =
  if (j <? n)%nat then None else nth_error l (j - n).
Proof.
  revert n. induction l as [|x t IH]; intros n.
  - simpl. destruct (j <? n)%nat; [reflexivity|]. now destruct (j - n)%nat.
  - cbn [indexed lookup]. rewrite IH.
    destruct (Nat.ltb_spec j (S n)) as [H1|H1].
    + destruct (String.eqb_spec (nat_to_string n) (nat_to_string j)) as [E|E].
      * apply nat_to_string_inj in E. subst j.
        rewrite Nat.ltb_irrefl, Nat.sub_diag. reflexivity.
      * destruct (Nat.ltb_spec j n) as [H2|H2]; [reflexivity|].
        exfalso. apply E. f_equal. lia.
    + destruct (Nat.ltb_spec j n) as [H2|H2]; [lia|].
      replace (j - n)%nat with (S (j - S n)) by lia. cbn [nth_error].
      destruct (nth_error t (j - S n)); [reflexivity|].
      destruct (String.eqb_spec (nat_to_string n) (nat_to_string j)) as [E|E];
        [|reflexivity].
      apply nat_to_string_inj in E. lia.
Qed.

Lemma index_not_word i k :
  (exists c r, k = String c r /\ digitOf c = None) -> nat_to_string i <> k.
Proof.
  intros (c & r & -> & Hc) H.
  destruct (nat_to_string_head i) as (c' & r' & E & Hc').
  rewrite E in H. injection H as -> _. contradiction.
Qed.



(* ================================================================== *)
(** * The program with the coercions that raise: properties *)
(* ================================================================== *)

Lemma mapM_length {A B} (f : A -> completion B) l r :
  mapM f l = Normal r -> List.length r = List.length l.
Proof.
  revert r. induction l as [|x t IH]; simpl; intros r H.
  - now injection H as <-.
  - destruct (f x) as [y|e]; [|discriminate H]. simpl in H.
    destruct (mapM f t) as [ys|e]; [|discriminate H]. simpl in H.
    injection H as <-. simpl. now rewrite (IH ys).
Qed.

Lemma mapM_app {A B} (f : A -> completion B) l1 l2 :
  mapM f (l1 ++ l2) =
  (r1 <- mapM f l1 ;; r2 <- mapM f l2 ;; Normal (r1 ++ r2)%list).
Proof.
  induction l1 as [|x t IH]; simpl.
  - destruct (mapM f l2); reflexivity.
  - destruct (f x) as [y|e]; [|reflexivity]. simpl. rewrite IH.
    destruct (mapM f t) as [ys|e]; [|reflexivity]. simpl.
    destruct (mapM f l2); reflexivity.
Qed.

Lemma isPrimitive_isMessageArg a :
  isPrimitive a = true <-> isMessageArg a = true.
Proof. destruct a; simpl; intuition congruence. Qed.

Lemma isPrimitive_not_isError a : isPrimitive a = true -> isError a = false.
Proof. destruct a; simpl; intros H; try discriminate H; reflexivity. Qed.

Lemma filter_none {A} (p : A -> bool) l :
  Forall (fun a => p a = false) l -> filter p l = [].
Proof.
  induction 1 as [|a t Ha _ IH]; simpl; [reflexivity|]. now rewrite Ha.
Qed.

Section FullProperties.

Variable numberText : Z -> string.

(* ------------------------------------------------------------------ *)
(** ** The entry: writes and reads *)

Lemma put_store k v o :
  k <> "__proto__" -> Full.put k v o = Full.store k v o.
Proof.
  intros H. unfold Full.put.
  destruct (String.eqb_spec k "__proto__"); [contradiction|reflexivity].
Qed.

Lemma fields_setPrototypeOf o v :
  Full.fields (Full.setPrototypeOf o v) = Full.fields o.
Proof. destruct v; reflexivity. Qed.

Lemma NoDup_put k v o :
  NoDup (keys (Full.fields o)) -> NoDup (keys (Full.fields (Full.put k v o))).
Proof.
  intros H. unfold Full.put.
  destruct (_ && _).
  - now rewrite fields_setPrototypeOf.
  - now apply NoDup_set.
Qed.

(** Reading a key other than [__proto__] after a write. *)
Lemma lookup_put k' v o k :
  k <> "__proto__" -> NoDup (keys (Full.fields o)) ->
  lookup k (Full.fields (Full.put k' v o)) =
  if String.eqb k' k then Some v else lookup k (Full.fields o).
Proof.
  intros Hk H. unfold Full.put.
  destruct (String.eqb_spec k' "__proto__") as [->|ne]; cbn [andb].
  - destruct (String.eqb_spec "__proto__" k) as [e|_]; [congruence|].
    destruct (_ && _).
    + now rewrite fields_setPrototypeOf.
    + apply lookup_set_other. congruence.
  - now apply lookup_set.
Qed.

Lemma NoDup_puts (writes : list (string * value)) o :
  NoDup (keys (Full.fields o)) ->
  NoDup (keys (Full.fields
    (fold_left (fun o kv => Full.put (fst kv) (snd kv) o) writes o))).
Proof.
  revert o. induction writes as [|[k v] t IH]; simpl; intros o H; [exact H|].
  apply IH. now apply NoDup_put.
Qed.

Lemma lookup_puts (writes : list (string * value)) o k :
  k <> "__proto__" -> NoDup (keys (Full.fields o)) ->
  lookup k (Full.fields
    (fold_left (fun o kv => Full.put (fst kv) (snd kv) o) writes o)) =
  match lookup k writes with
  | Some x => Some x
  | None => lookup k (Full.fields o)
  end.
Proof.
  intros Hk. revert o. induction writes as [|[k' v] t IH]; simpl; intros o H.
  - reflexivity.
  - rewrite IH by now apply NoDup_put.
    destruct (lookup k t); [reflexivity|].
    rewrite lookup_put by assumption.
    now destruct (String.eqb k' k).
Qed.

Lemma NoDup_Full_mergeObjects objs o :
  NoDup (keys (Full.fields o)) ->
  NoDup (keys (Full.fields (Full.mergeObjects objs o))).
Proof.
  revert o. induction objs as [|a t IH]; intros o H; [exact H|].
  apply (IH (Full.Object_assign o a)). now apply NoDup_puts.
Qed.

Lemma lookup_Full_mergeObjects objs o k :
  k <> "__proto__" -> NoDup (keys (Full.fields o)) ->
  lookup k (Full.fields (Full.mergeObjects objs o)) =
  match lookup k (contextFields objs) with
  | Some x => Some x
  | None => lookup k (Full.fields o)
  end.
Proof.
  intros Hk. revert o. induction objs as [|a t IH]; intros o H; [reflexivity|].
  change (Full.mergeObjects (a :: t) o)
    with (Full.mergeObjects t (Full.Object_assign o a)).
  rewrite IH by now apply NoDup_puts.
  change (contextFields (a :: t))
    with (ownEnumerable a ++ contextFields t)%list.
  rewrite lookup_app.
  destruct (lookup k (contextFields t)); [reflexivity|].
  now apply lookup_puts.
Qed.

Lemma NoDup_Full_baseEntry now level :
  NoDup (keys (Full.fields (Full.baseEntry now level))).
Proof. apply NoDup_baseEntry. Qed.

Lemma NoDup_Full_mergedEntry now level args :
  NoDup (keys (Full.fields (Full.mergedEntry now level args))).
Proof. apply NoDup_Full_mergeObjects, NoDup_Full_baseEntry. Qed.

Lemma lookup_Full_mergedEntry now level args k :
  k <> "__proto__" ->
  lookup k (Full.fields (Full.mergedEntry now level args)) =
  match lookup k (contextFields (filter isObjectArg args)) with
  | Some x => Some x
  | None => lookup k (Full.fields (Full.baseEntry now level))
  end.
Proof.
  intros Hk. now apply lookup_Full_mergeObjects, NoDup_Full_baseEntry.
Qed.

Lemma NoDup_store k v o :
  NoDup (keys (Full.fields o)) ->
  NoDup (keys (Full.fields (Full.store k v o))).
Proof. apply NoDup_set. Qed.

Lemma lookup_store k' v o k :
  NoDup (keys (Full.fields o)) ->
  lookup k (Full.fields (Full.store k' v o)) =
  if String.eqb k' k then Some v else lookup k (Full.fields o).
Proof. apply lookup_set. Qed.

Lemma NoDup_Full_messageStep fragments entry :
  NoDup (keys (Full.fields entry)) ->
  NoDup (keys (Full.fields (Full.messageStep numberText fragments entry))).
Proof.
  intros H. unfold Full.messageStep. destruct (String.eqb _ ""); [exact H|].
  now apply NoDup_store.
Qed.

Lemma lookup_Full_messageStep fragments entry k :
  NoDup (keys (Full.fields entry)) ->
  lookup k (Full.fields (Full.messageStep numberText fragments entry)) =
  if negb (String.eqb (Full.renderedMessage numberText fragments) "")
     && String.eqb "message" k
  then Some (VStr (Full.renderedMessage numberText fragments))
  else lookup k (Full.fields entry).
Proof.
  intros H. unfold Full.messageStep.
  destruct (String.eqb _ ""); [reflexivity|]. cbn [negb andb].
  now apply lookup_store.
Qed.

Lemma NoDup_Full_errorFields rs entry :
  NoDup (keys (Full.fields entry)) ->
  NoDup (keys (Full.fields (Full.errorFields rs entry))).
Proof.
  intros H. unfold Full.errorFields.
  destruct rs as [|r [|r' t]]; [exact H| |]; repeat apply NoDup_store;
    exact H.
Qed.

Lemma lookup_Full_errorFields_other rs entry k :
  ~ In k (errorKeysOf (List.length rs)) ->
  lookup k (Full.fields (Full.errorFields rs entry)) =
  lookup k (Full.fields entry).
Proof.
  unfold Full.errorFields.
  destruct rs as [|r [|r' t]]; [reflexivity| |]; simpl; intros H;
    unfold Full.store; cbn [Full.fields];
    rewrite !lookup_set_other; try reflexivity; intros <-; apply H; tauto.
Qed.

Lemma NoDup_Full_entryBeforeErrors now level args :
  NoDup (keys (Full.fields (Full.entryBeforeErrors numberText now level args))).
Proof. apply NoDup_Full_messageStep, NoDup_Full_mergedEntry. Qed.

(* ------------------------------------------------------------------ *)
(** ** The message *)

Lemma Full_serializeArg_fragment a :
  isPrimitive a = true ->
  Full.serializeArg numberText a =
  Normal (VStr (Full.fragmentText numberText a)).
Proof.
  destruct a as [| |[]|[]|s|l|p ps]; simpl; intros H; try discriminate H;
    reflexivity.
Qed.

Lemma Full_join_strings sep (texts : list string) :
  Full.join numberText sep (map VStr texts) = Normal (String.concat sep texts).
Proof.
  unfold Full.join.
  assert (H : mapM (fun e => if isNullish e then Normal ""
                             else Full.ToString numberText e)
                   (map VStr texts) = Normal texts).
  { induction texts as [|s t IH]; simpl; [reflexivity|]. now rewrite IH. }
  now rewrite H.
Qed.

Lemma Full_serializeArgs_fragments l :
  Forall (fun a => isPrimitive a = true) l ->
  Full.serializeArgs numberText l =
  Normal (Full.renderedMessage numberText l).
Proof.
  intros H. unfold Full.serializeArgs.
  rewrite (mapM_Normal (Full.serializeArg numberText)
             (fun a => VStr (Full.fragmentText numberText a))).
  - simpl. rewrite <- (map_map (Full.fragmentText numberText) VStr).
    apply Full_join_strings.
  - eapply Forall_impl; [|exact H]. apply Full_serializeArg_fragment.
Qed.

Lemma Forall_isPrimitive_filter args :
  Forall (fun a => isPrimitive a = true) (filter isMessageArg args).
Proof.
  eapply Forall_impl; [|apply Forall_filter].
  intros a. apply isPrimitive_isMessageArg.
Qed.

Lemma Full_attachMessage fragments entry :
  Forall (fun a => isPrimitive a = true) fragments ->
  Full.attachMessage numberText fragments entry =
  Normal (Full.messageStep numberText fragments entry).
Proof.
  intros H. unfold Full.attachMessage, Full.messageStep.
  rewrite Full_serializeArgs_fragments by exact H. simpl.
  destruct (String.eqb _ ""); [reflexivity|].
  now rewrite put_store by discriminate.
Qed.

(* ------------------------------------------------------------------ *)
(** ** The error fields *)

Lemma Full_attachErrors es entry :
  Full.attachErrors numberText es entry =
  (rs <- mapM (Full.mapError numberText) es ;;
   Normal (Full.errorFields rs entry)).
Proof.
  unfold Full.attachErrors, first.
  destruct es as [|e [|e' t]].
  - reflexivity.
  - cbn [List.length Nat.ltb Nat.leb nth mapM].
    destruct (Full.mapError numberText e) as [r|x]; [|reflexivity].
    cbn [bind Full.errorFields].
    now rewrite !put_store by discriminate.
  - cbn [List.length Nat.ltb Nat.leb nth].
    change (mapM (Full.mapError numberText) (e :: e' :: t))
      with (y <- Full.mapError numberText e ;;
            ys <- mapM (Full.mapError numberText) (e' :: t) ;;
            Normal (y :: ys)).
    destruct (Full.mapError numberText e) as [r|x]; [|reflexivity].
    cbn [bind].
    destruct (mapM (Full.mapError numberText) (e' :: t)) as [ys|x] eqn:E;
      [|reflexivity].
    cbn [bind].
    pose proof (mapM_length _ _ _ E) as HL.
    destruct ys as [|r' ys]; [discriminate HL|].
    cbn [Full.errorFields].
    rewrite !put_store by discriminate.
    unfold lengthOf. cbn [List.length] in *. now rewrite HL.
Qed.

(** The entry of a call that passed the level check: the normalized
    errors, when every one of them can be built, on top of the merged
    fields and the message. *)
Lemma Full_buildEntry now level args :
  Full.buildEntry numberText now level args =
  (rs <- mapM (Full.mapError numberText) (filter isError args) ;;
   Normal (Full.errorFields rs
             (Full.entryBeforeErrors numberText now level args))).
Proof.
  unfold Full.buildEntry.
  rewrite Full_attachMessage by apply Forall_isPrimitive_filter.
  cbn [bind]. apply Full_attachErrors.
Qed.

Lemma Full_part001_buildEntry now level args :
  Full.part001_buildEntry numberText now level args =
  Normal (match filter isError args with
          | [] => Full.entryBeforeErrors numberText now level args
          | _ :: _ =>
              Full.store "errors" (VArr (map picked (filter isError args)))
                (Full.entryBeforeErrors numberText now level args)
          end).
Proof.
  unfold Full.part001_buildEntry.
  rewrite Full_attachMessage by apply Forall_isPrimitive_filter.
  cbn [bind]. unfold Full.part001_attachErrors.
  assert (HM : mapM Part001.pickError (filter isError args)
               = Normal (map picked (filter isError args))).
  { apply mapM_Normal. eapply Forall_impl; [|apply Forall_filter].
    intros e He. now apply pickError_picked, isError_not_nullish. }
  destruct (filter isError args) as [|e t]; [reflexivity|].
  cbn [List.length Nat.ltb Nat.leb]. rewrite HM. cbn [bind].
  now rewrite put_store by discriminate.
Qed.

Lemma Full_buildEntry_primitives now level args :
  Forall (fun a => isPrimitive a = true) args ->
  Full.buildEntry numberText now level args =
  Normal (Full.entryBeforeErrors numberText now level args).
Proof.
  intros H. rewrite Full_buildEntry.
  rewrite (filter_none isError args); [reflexivity|].
  eapply Forall_impl; [|exact H]. apply isPrimitive_not_isError.
Qed.

(** [mapError] on a value that has properties: the coercion of the
    message decides whether it returns. *)
Lemma Full_mapError e :
  isNullish e = false ->
  Full.mapError numberText e =
  (text <- (if isString (read e "message") then Normal (read e "message")
            else s <- Full.ToString numberText (orEmpty (read e "message")) ;;
                 Normal (VStr s)) ;;
   Normal (VObject
     ([("name", if isString (read e "name") then read e "name"
                else VStr "Error");
       ("message", text);
       ("stack", if isString (read e "stack") then read e "stack"
                 else VUndefined)]
      ++ (if negb (isUndefined (read e "code")) then [("code", read e "code")]
          else []))%list)).
Proof.
  intros H. unfold Full.mapError. rewrite !GetV_read by exact H. reflexivity.
Qed.

(* ------------------------------------------------------------------ *)
(** ** The level check *)

Lemma Full_method_logAt L m :
  Full.method numberText L = Some m ->
  In L LogLevels /\
  forall this now args out,
    m this now args out =
    Full.logAt numberText now (StandardLogger.logLevel this) L args out.
Proof.
  unfold Full.method.
  repeat match goal with
         | |- context [String.eqb L ?x] =>
             destruct (String.eqb_spec L x) as [->|_];
             [intros [= <-]; split; [simpl; tauto|reflexivity]|]
         end.
  intros H. discriminate H.
Qed.

Lemma Full_logAt_gated now cur L args out :
  gt (lookup L LEVELS) (lookup cur LEVELS) = true ->
  Full.logAt numberText now cur L args out = Normal out.
Proof. unfold Full.logAt. now intros ->. Qed.

Lemma Full_logAt_passed now cur L args out :
  gt (lookup L LEVELS) (lookup cur LEVELS) = false ->
  Full.logAt numberText now cur L args out =
  (entry <- Full.buildEntry numberText now L args ;;
   Normal (out ++ [(sinkOf L,
             Full.JSON_stringify_record numberText (Full.fields entry))])%list).
Proof. unfold Full.logAt. now intros ->. Qed.

End FullProperties.

(* ------------------------------------------------------------------ *)
(** ** The level check and the line (C1) *)

Lemma error_passes cur : gt (lookup "error" LEVELS) (lookup cur LEVELS) = false.
Proof.
  destruct (lookup cur LEVELS) as [r|] eqn:E; [|reflexivity].
  apply lookup_Some_In in E. simpl in E.
  repeat (destruct E as [[= _ <-]|E]; [reflexivity|]). destruct E.
Qed.



(* ------------------------------------------------------------------ *)
(** ** The two revisions (C3) *)

(** When the name and the message are strings, the stack is a string or
    [undefined] and there is no code, normalizing is picking the three
    fields. *)
Lemma Full_mapError_picked numberText e :
  isNullish e = false ->
  isString (read e "name") = true ->
  isString (read e "message") = true ->
  isString (read e "stack") = true \/ read e "stack" = VUndefined ->
  read e "code" = VUndefined ->
  Full.mapError numberText e = Normal (picked e).
Proof.
  intros He Hn Hm Hs Hc. rewrite Full_mapError by exact He.
  rewrite Hn, Hm, Hc. unfold picked. simpl.
  destruct Hs as [Hs|Hs]; rewrite Hs; reflexivity.
Qed.

(** C3, amended.  Whenever the current revision builds an entry, the
    earlier one builds an entry too, and the two agree on every field but
    [error], [error_count] and [errors] (and are the same entry when no
    argument is error-like).  With at least one error-like argument the
    earlier revision writes [errors] only: the array of the name, message
    and stack of each error-like argument as read, in order, which is the
    array of the normalized errors when names and messages are strings,
    stacks are strings or [undefined] and there are no codes.  The
    current revision writes [error], the first normalized error, and
    [error_count], their number, and writes [errors], the array of all
    normalized errors, only when there is more than one.  On a call with
    a single [new Error] both build an entry and the entries differ. *)
Theorem C3_revisions_agree_up_to_errors :
  forall numberText,
    (forall now level args entryA,
       Full.buildEntry numberText now level args = Normal entryA ->
       let es := filter isError args in
       let before := Full.entryBeforeErrors numberText now level args in
       exists entryB normalizedErrors,
         Full.part001_buildEntry numberText now level args = Normal entryB /\
         mapM (Full.mapError numberText) es = Normal normalizedErrors /\
         (forall k, ~ In k ["error"; "error_count"; "errors"] ->
            lookup k (Full.fields entryA) = lookup k (Full.fields entryB)) /\
         Full.proto entryA = Full.proto entryB /\
         (es = [] -> entryA = entryB) /\
         (es <> [] ->
            lookup "errors" (Full.fields entryB) = Some (VArr (map picked es)) /\
            (forall k, k <> "errors" ->
               lookup k (Full.fields entryB) = lookup k (Full.fields before)) /\
            ((forall e, In e es ->
                isString (read e "name") = true /\
                isString (read e "message") = true /\
                (isString (read e "stack") = true \/
                 read e "stack" = VUndefined) /\
                read e "code" = VUndefined) ->
             lookup "errors" (Full.fields entryB)
             = Some (VArr normalizedErrors)) /\
            lookup "error" (Full.fields entryA)
              = Some (first normalizedErrors) /\
            lookup "error_count" (Full.fields entryA) = Some (lengthOf es) /\
            ((1 < List.length es)%nat ->
               lookup "errors" (Full.fields entryA)
               = Some (VArr normalizedErrors)) /\
            (List.length es = 1%nat ->
               lookup "errors" (Full.fields entryA)
               = lookup "errors" (Full.fields before)) /\
            (forall k, ~ In k ["error"; "error_count"; "errors"] ->
               lookup k (Full.fields entryA)
               = lookup k (Full.fields before)))) /\
    (forall now level,
       exists entryA entryB,
         Full.buildEntry numberText now level [newError "boom" "Error: boom"]
           = Normal entryA /\
         Full.part001_buildEntry numberText now level
           [newError "boom" "Error: boom"] = Normal entryB /\
         lookup "error_count" (Full.fields entryA)
           <> lookup "error_count" (Full.fields entryB) /\
         lookup "errors" (Full.fields entryA)
           <> lookup "errors" (Full.fields entryB)).
Proof.
  intros numberText. split.
  - intros now level args entryA HA. cbv zeta.
    rewrite Full_buildEntry in HA.
    destruct (mapM (Full.mapError numberText) (filter isError args))
      as [rs|x] eqn:EM; [|discriminate HA].
    cbn [bind] in HA. injection HA as <-.
    pose proof (mapM_length _ _ _ EM) as HL.
    pose proof (NoDup_Full_entryBeforeErrors numberText now level args) as ND.
    pose proof (Full_part001_buildEntry numberText now level args) as HBuild.
    set (before := Full.entryBeforeErrors numberText now level args) in *.
    eexists _, rs. split; [exact HBuild|].
    split; [reflexivity|].
    assert (HAk : forall k, ~ In k ["error"; "error_count"; "errors"] ->
              lookup k (Full.fields (Full.errorFields rs before))
              = lookup k (Full.fields before)).
    { intros k Hk. apply lookup_Full_errorFields_other.
      destruct rs as [|r [|r' t]]; simpl in *; tauto. }
    assert (HBk : forall k, k <> "errors" ->
              lookup k (Full.fields
                (match filter isError args with
                 | [] => before
                 | _ :: _ =>
                     Full.store "errors"
                       (VArr (map picked (filter isError args))) before
                 end))
              = lookup k (Full.fields before)).
    { intros k Hk. destruct (filter isError args) as [|e t]; [reflexivity|].
      now apply lookup_set_other; intros <-. }
    split; [|split; [|split; [|]]].
    + intros k Hk. rewrite HAk by exact Hk. rewrite HBk; [reflexivity|].
      intros ->. apply Hk. simpl. tauto.
    + destruct rs as [|r [|r' t]]; destruct (filter isError args);
        reflexivity.
    + intros E. rewrite E in *. destruct rs; [reflexivity|discriminate HL].
    + intros Hes.
      assert (HBerr : lookup "errors" (Full.fields
                (match filter isError args with
                 | [] => before
                 | _ :: _ =>
                     Full.store "errors"
                       (VArr (map picked (filter isError args))) before
                 end))
              = Some (VArr (map picked (filter isError args)))).
      { destruct (filter isError args) as [|e t]; [congruence|].
        now apply lookup_set_same. }
      split; [exact HBerr|]. split; [exact HBk|].
      split.
      { intros Hall. rewrite HBerr. do 2 f_equal.
        assert (HP : mapM (Full.mapError numberText) (filter isError args)
                     = Normal (map picked (filter isError args))).
        { apply mapM_Normal. apply Forall_forall. intros e He.
          destruct (Hall e He) as (Hn & Hm & Hs & Hc).
          apply Full_mapError_picked; try assumption.
          apply isError_not_nullish. now apply filter_In in He. }
        rewrite HP in EM. now injection EM. }
      unfold Full.errorFields, first.
      destruct (filter isError args) as [|e [|e' t]] eqn:E; [congruence| |].
      * destruct rs as [|r [|r' rs]]; try discriminate HL.
        cbn [nth Full.store Full.fields].
        split; [rewrite lookup_set_other by discriminate;
                now apply lookup_set_same|].
        split; [apply lookup_set_same; auto using NoDup_set|].
        split; [simpl; lia|].
        split; [intros _; now rewrite !lookup_set_other by discriminate|].
        intros k Hk. rewrite !lookup_set_other; [reflexivity| |];
          intros <-; apply Hk; simpl; tauto.
      * destruct rs as [|r [|r' rs]]; try discriminate HL.
        cbn [nth Full.store Full.fields].
        split; [rewrite !lookup_set_other by discriminate;
                now apply lookup_set_same|].
        split; [rewrite lookup_set_other by discriminate;
                unfold lengthOf; rewrite HL;
                apply lookup_set_same; auto using NoDup_set|].
        split; [intros _; apply lookup_set_same; auto using NoDup_set|].
        split; [simpl; intros H; discriminate H|].
        intros k Hk. rewrite !lookup_set_other; [reflexivity| | |];
          intros <-; apply Hk; simpl; tauto.
  - intros now level. eexists _, _.
    split; [reflexivity|]. split; [reflexivity|].
    split; intros H; discriminate H.
Qed.

(* ------------------------------------------------------------------ *)
(** ** The merge (C4) *)

(** C4, as stated, fails: [Object.assign] hands the key [__proto__] of a
    context object to the prototype setter, and the entry gets no such
    field. *)
Lemma C4_proto_key_is_not_merged : ~ context_is_merged.
Proof.
  intros H.
  assert (E : Full.buildEntry Z_to_string 0%Z "info" [protoKeyed]
              = Normal (Full.baseEntry 0%Z "info")) by reflexivity.
  specialize (H Z_to_string 0%Z "info" [protoKeyed] _ "__proto__" E).
  vm_compute in H. discriminate H. intros [].
Qed.

Lemma proto_store k v o : Full.proto (Full.store k v o) = Full.proto o.
Proof. reflexivity. Qed.

Lemma proto_errorFields rs o :
  Full.proto (Full.errorFields rs o) = Full.proto o.
Proof. destruct rs as [|r [|r' t]]; reflexivity. Qed.

Lemma proto_messageStep numberText ms o :
  Full.proto (Full.messageStep numberText ms o) = Full.proto o.
Proof. unfold Full.messageStep. now destruct (String.eqb _ ""). Qed.

Lemma lookup_Full_errorFields_congr rs e1 e2 k :
  NoDup (keys (Full.fields e1)) -> NoDup (keys (Full.fields e2)) ->
  lookup k (Full.fields e1) = lookup k (Full.fields e2) ->
  lookup k (Full.fields (Full.errorFields rs e1))
  = lookup k (Full.fields (Full.errorFields rs e2)).
Proof.
  intros H1 H2 H. unfold Full.errorFields.
  destruct rs as [|r [|r' t]]; [exact H| |];
    rewrite !lookup_store by auto using NoDup_store;
    now rewrite H.
Qed.

Lemma filter_without_fragments args :
  let rest := filter (fun a => negb (isMessageArg a)) args in
  filter isError rest = filter isError args /\
  filter isObjectArg rest = filter isObjectArg args /\
  filter isMessageArg rest = [].
Proof.
  cbv zeta. split; [|split].
  - apply filter_filter_impl. intros a Ha. by_group a; simpl; congruence.
  - apply filter_filter_impl. intros a Ha. by_group a; simpl; congruence.
  - apply filter_filter_none. intros a. now destruct (isMessageArg a).
Qed.

(** Writes of other keys leave [__proto__] as it is. *)
Lemma lookup_proto_stores (writes : list (string * value)) o :
  ~ In "__proto__" (keys writes) ->
  lookup "__proto__" (Full.fields
    (fold_left (fun o kv => Full.put (fst kv) (snd kv) o) writes o))
  = lookup "__proto__" (Full.fields o).
Proof.
  revert o. induction writes as [|[k v] t IH]; intros o H; [reflexivity|].
  cbn [fold_left fst snd]. rewrite IH by (intros Hin; apply H; now right).
  assert (Hk : k <> "__proto__") by (intros ->; apply H; now left).
  rewrite put_store by exact Hk. now apply lookup_set_other.
Qed.

(** One object assigned to an entry whose chain reaches the setter: no
    field [__proto__] is created. *)
Lemma lookup_proto_puts (writes : list (string * value)) o :
  NoDup (keys writes) ->
  lookup "__proto__" (Full.fields o) = None ->
  Full.shadowsProto (Full.proto o) = false ->
  lookup "__proto__" (Full.fields
    (fold_left (fun o kv => Full.put (fst kv) (snd kv) o) writes o)) = None.
Proof.
  revert o. induction writes as [|[k v] t IH]; intros o ND Hown Hsh;
    [exact Hown|].
  inversion ND as [|? ? Hn Ht]; subst. cbn [fold_left fst snd].
  destruct (String.eqb_spec k "__proto__") as [->|ne].
  - rewrite lookup_proto_stores by exact Hn.
    unfold Full.put, hasOwnProperty. rewrite Hown, Hsh. cbn.
    now rewrite fields_setPrototypeOf.
  - rewrite put_store by exact ne. apply IH; [exact Ht| |exact Hsh].
    cbn [Full.store Full.fields]. now rewrite lookup_set_other.
Qed.

(** C4, amended.  In the entry of a call that passes the level check,
    every field other than [__proto__] that the message step and the
    error step do not write holds the value of the last object argument
    owning that key, and the base value when no object argument owns it:
    the object arguments are merged in argument order and a later one
    overwrites an earlier one.  The arguments that are neither objects
    nor error-like reach the entry through [message] only: without them
    the call builds an entry with the same prototype and the same fields
    but [message], and with them [message] is their rendered text unless
    that is empty.  A call with a single object argument builds an entry
    without a field [__proto__], whatever the properties of the
    object. *)
Theorem C4_context_merge_below_proto :
  forall numberText now L args entry,
    Full.buildEntry numberText now L args = Normal entry ->
    let objectArgs := filter isObjectArg args in
    let fragments := filter isMessageArg args in
    let written := (Full.messageKeys numberText fragments
                    ++ errorKeysOf (List.length (filter isError args)))%list in
    (forall k, k <> "__proto__" -> ~ In k written ->
       lookup k (Full.fields entry) =
       match lookup k (contextFields objectArgs) with
       | Some v => Some v
       | None => lookup k (Full.fields (Full.baseEntry now L))
       end) /\
    (forall pre o post k v,
       objectArgs = (pre ++ o :: post)%list ->
       lookup k (ownEnumerable o) = Some v ->
       (forall o', In o' post -> lookup k (ownEnumerable o') = None) ->
       k <> "__proto__" -> ~ In k written ->
       lookup k (Full.fields entry) = Some v) /\
    (exists entry',
       Full.buildEntry numberText now L
         (filter (fun a => negb (isMessageArg a)) args) = Normal entry' /\
       Full.proto entry' = Full.proto entry /\
       forall k, k <> "message" ->
         lookup k (Full.fields entry) = lookup k (Full.fields entry')) /\
    (Full.renderedMessage numberText fragments <> "" ->
     lookup "message" (Full.fields entry)
     = Some (VStr (Full.renderedMessage numberText fragments))) /\
    (forall o,
       objectArgs = [o] -> NoDup (keys (ownEnumerable o)) ->
       lookup "__proto__" (Full.fields entry) = None).
Proof.
  intros numberText now L args entry HB. cbv zeta.
  assert (Hunwritten : forall k, k <> "__proto__" ->
            ~ In k (Full.messageKeys numberText (filter isMessageArg args)
                    ++ errorKeysOf (List.length (filter isError args)))%list ->
            lookup k (Full.fields entry) =
            match lookup k (contextFields (filter isObjectArg args)) with
            | Some v => Some v
            | None => lookup k (Full.fields (Full.baseEntry now L))
            end).
  { intros k Hp Hk. rewrite Full_buildEntry in HB.
    destruct (mapM (Full.mapError numberText) (filter isError args))
      as [rs|x] eqn:EM; [|discriminate HB].
    cbn [bind] in HB. injection HB as <-.
    rewrite lookup_Full_errorFields_other.
    2:{ rewrite (mapM_length _ _ _ EM). intros Hin. apply Hk, in_or_app.
        now right. }
    unfold Full.entryBeforeErrors.
    rewrite lookup_Full_messageStep by apply NoDup_Full_mergedEntry.
    rewrite lookup_Full_mergedEntry by exact Hp.
    unfold Full.messageKeys in Hk.
    destruct (String.eqb (Full.renderedMessage _ _) ""); [reflexivity|].
    cbn [negb andb].
    destruct (String.eqb_spec "message" k) as [<-|_]; [|reflexivity].
    exfalso. apply Hk. now left. }
  split; [|split; [|split; [|split]]].
  - exact Hunwritten.
  - intros pre o post k v Hsplit Ho Hpost Hp Hk.
    rewrite Hunwritten by assumption.
    now rewrite (lookup_contextFields_last _ pre o post k v Hsplit Ho Hpost).
  - rewrite Full_buildEntry in HB.
    destruct (mapM (Full.mapError numberText) (filter isError args))
      as [rs|x] eqn:EM; [|discriminate HB].
    cbn [bind] in HB. injection HB as <-.
    destruct (filter_without_fragments args) as (HE & HO & HM).
    eexists. split; [|split].
    + rewrite Full_buildEntry, HE, EM. reflexivity.
    + unfold Full.entryBeforeErrors, Full.mergedEntry.
      rewrite !proto_errorFields, !proto_messageStep, HO. reflexivity.
    + intros k Hk. unfold Full.entryBeforeErrors, Full.mergedEntry.
      rewrite HO, HM.
      apply lookup_Full_errorFields_congr;
        try (apply NoDup_Full_messageStep, NoDup_Full_mergeObjects,
               NoDup_Full_baseEntry).
      rewrite !lookup_Full_messageStep
        by apply NoDup_Full_mergeObjects, NoDup_Full_baseEntry.
      destruct (String.eqb_spec "message" k) as [<-|_]; [congruence|].
      now rewrite !andb_false_r.
  - intros Hmsg. rewrite Full_buildEntry in HB.
    destruct (mapM (Full.mapError numberText) (filter isError args))
      as [rs|x] eqn:EM; [|discriminate HB].
    cbn [bind] in HB. injection HB as <-.
    rewrite lookup_Full_errorFields_other.
    2:{ destruct rs as [|r [|r' t]]; simpl; intuition discriminate. }
    unfold Full.entryBeforeErrors.
    rewrite lookup_Full_messageStep by apply NoDup_Full_mergedEntry.
    destruct (String.eqb_spec
                (Full.renderedMessage numberText (filter isMessageArg args)) "");
      [contradiction|reflexivity].
  - intros o Ho ND. rewrite Full_buildEntry in HB.
    destruct (mapM (Full.mapError numberText) (filter isError args))
      as [rs|x] eqn:EM; [|discriminate HB].
    cbn [bind] in HB. injection HB as <-.
    rewrite lookup_Full_errorFields_other.
    2:{ destruct rs as [|r [|r' t]]; simpl; intuition discriminate. }
    unfold Full.entryBeforeErrors.
    rewrite lookup_Full_messageStep by apply NoDup_Full_mergedEntry.
    rewrite andb_false_r. unfold Full.mergedEntry. rewrite Ho.
    now apply lookup_proto_puts.
Qed.

(* ------------------------------------------------------------------ *)
(** ** The message (C5) *)

(** C5. The message fragments of the model are [undefined], [null],
    booleans, numbers and strings.  A list of them renders to the texts
    of its fragments joined by single spaces, where a string is taken as
    it is, [undefined] gives the word "undefined" and any other fragment
    the text [JSON.stringify] gives for it.  [logAt] assigns that string
    to [message] when it is not empty and does not assign [message] when
    it is empty, so in the entry of a call [message] is then whatever the
    object arguments left. *)
Theorem C5_message_text :
  forall numberText fragments,
    Forall (fun a => isPrimitive a = true) fragments ->
    let msg := String.concat " "
                 (map (Full.fragmentText numberText) fragments) in
    Full.serializeArgs numberText fragments = Normal msg /\
    (forall a, messageFragment a <-> isPrimitive a = true) /\
    (forall a, In a fragments ->
       match a with
       | VStr s => Full.fragmentText numberText a = s
       | VUndefined => Full.fragmentText numberText a = "undefined"
       | _ => Full.JSON_stringify numberText a
              = Some (Full.fragmentText numberText a)
       end) /\
    (forall entry,
       Full.attachMessage numberText fragments entry =
       Normal (if String.eqb msg "" then entry
               else Full.store "message" (VStr msg) entry)) /\
    forall now level args entry,
      filter isMessageArg args = fragments ->
      Full.buildEntry numberText now level args = Normal entry ->
      (msg <> "" -> lookup "message" (Full.fields entry) = Some (VStr msg)) /\
      (msg = "" ->
       lookup "message" (Full.fields entry) =
       lookup "message" (contextFields (filter isObjectArg args))).
Proof.
  intros numberText fragments HF. cbv zeta.
  split; [now apply Full_serializeArgs_fragments|].
  split.
  { intros a. rewrite isPrimitive_isMessageArg.
    symmetry. apply isMessageArg_messageFragment. }
  split.
  { intros a Ha. rewrite Forall_forall in HF. specialize (HF a Ha).
    destruct a as [| |[]|[]|s|l|p ps]; try discriminate HF; reflexivity. }
  split.
  { intros entry. now apply Full_attachMessage. }
  intros now level args entry <- HB.
  fold (Full.renderedMessage numberText (filter isMessageArg args)).
  rewrite Full_buildEntry in HB.
  destruct (mapM (Full.mapError numberText) (filter isError args))
    as [rs|x] eqn:EM; [|discriminate HB].
  cbn [bind] in HB. injection HB as <-.
  rewrite lookup_Full_errorFields_other.
  2:{ destruct rs as [|r [|r' t]]; simpl; intuition discriminate. }
  unfold Full.entryBeforeErrors.
  rewrite lookup_Full_messageStep by apply NoDup_Full_mergedEntry.
  destruct (String.eqb_spec
              (Full.renderedMessage numberText (filter isMessageArg args)) "")
    as [E|E]; cbn [negb andb].
  - split; [intros H; contradiction|]. intros _.
    rewrite lookup_Full_mergedEntry by discriminate.
    now destruct (lookup "message" (contextFields _)).
  - split; [reflexivity|]. intros H. contradiction.
Qed.

(* ------------------------------------------------------------------ *)
(** ** [mapError] (C6) *)

(** C6.  [mapError] raises on an error-like value: on
    [{name: 'E', message: {toString: null}}] the coercion
    [String(message ?? '')] of line 99 raises a [TypeError], and so does
    the [error] call that receives the value, at every threshold.  On a
    value that has properties [mapError] raises exactly when the message
    is not a string and its coercion raises; when the coercion returns,
    the record is the one the specification describes: [name] is the
    input's name when that is a string and "Error" otherwise, [message]
    is the input's message when that is a string and the coerced text
    otherwise (the empty text for [null] and [undefined]), [stack] is
    the input's stack when that is a string and [undefined] otherwise,
    so that it is left out of the JSON text, [code] is the input's
    code. *)
Theorem C6_mapError_raises_on_own_toString :
  forall numberText,
    isError malformed = true /\
    Full.mapError numberText malformed = Throw TypeError /\
    (forall this now out,
       Full.error numberText this now [malformed] out = Throw TypeError) /\
    forall e,
      isNullish e = false ->
      (forall x,
         Full.mapError numberText e = Throw x <->
         isString (read e "message") = false /\
         Full.ToString numberText (orEmpty (read e "message")) = Throw x) /\
      (forall r,
         Full.mapError numberText e = Normal r ->
         Get r "name" =
           Some (match read e "name" with
                 | VStr n => VStr n
                 | _ => VStr "Error"
                 end) /\
         (exists text,
            Get r "message" = Some (VStr text) /\
            match read e "message" with
            | VStr m => text = m
            | VUndefined | VNull => text = ""
            | m => Full.ToString numberText m = Normal text
            end) /\
         Get r "stack" =
           Some (match read e "stack" with
                 | VStr s => VStr s
                 | _ => VUndefined
                 end) /\
         Get r "code" = Some (read e "code") /\
         (isString (read e "stack") = false ->
          forall j, toJSON r = Some j -> field "stack" j = None)).
Proof.
  intros numberText.
  split; [reflexivity|]. split; [reflexivity|].
  split.
  { intros this now out. unfold Full.error.
    rewrite Full_logAt_passed by apply error_passes. reflexivity. }
  intros e He. rewrite Full_mapError by exact He.
  split.
  - intros x. destruct (isString (read e "message")) eqn:Em.
    + cbn [bind]. split; [intros H; discriminate H|].
      intros [H _]. discriminate H.
    + destruct (Full.ToString numberText (orEmpty (read e "message")))
        as [s|y]; cbn [bind].
      * split; [intros H; discriminate H|]. intros [_ H]. discriminate H.
      * split; [intros [= <-]; now split|]. now intros [_ [= <-]].
  - intros r Hr.
    assert (Hmsg : exists text,
              (if isString (read e "message") then Normal (read e "message")
               else s <- Full.ToString numberText (orEmpty (read e "message")) ;;
                    Normal (VStr s)) = Normal (VStr text) /\
              match read e "message" with
              | VStr m => text = m
              | VUndefined | VNull => text = ""
              | m => Full.ToString numberText m = Normal text
              end).
    { destruct (read e "message") as [| |b|n|s|l|p ps] eqn:Em;
        cbn [isString typeof typeTag_eqb orEmpty isNullish isNull
             isUndefined orb] in *;
        try (now eexists);
        match type of Hr with
        | context [Full.ToString numberText ?v] =>
            destruct (Full.ToString numberText v) as [s|y];
            [exists s; now split|discriminate Hr]
        end. }
    destruct Hmsg as (text & Etext & Htext). rewrite Etext in Hr.
    cbn [bind] in Hr. injection Hr as <-.
    destruct (isUndefined (read e "code")) eqn:Ecode; cbn.
    + split; [now destruct (read e "name")|].
      split; [now exists text|].
      split; [now destruct (read e "stack")|].
      split; [now destruct (read e "code")|].
      intros Hs j Hj. injection Hj as <-.
      destruct (read e "stack"); try discriminate Hs; cbn;
        repeat (destruct (toJSON _); cbn); reflexivity.
    + split; [now destruct (read e "name")|].
      split; [now exists text|].
      split; [now destruct (read e "stack")|].
      split; [reflexivity|].
      intros Hs j Hj. injection Hj as <-.
      destruct (read e "stack"); try discriminate Hs; cbn;
        repeat (destruct (toJSON _); cbn); reflexivity.
Qed.

(* ------------------------------------------------------------------ *)
(** ** The properties on concrete calls *)


(** On a system error the current revision builds an entry, and the
    earlier one writes the picked fields. *)
Lemma C3_revisions_agree_up_to_errors_witness :
  exists entryA entryB,
    Full.buildEntry Z_to_string 0%Z "error" [systemError] = Normal entryA /\
    Full.part001_buildEntry Z_to_string 0%Z "error" [systemError]
      = Normal entryB /\
    lookup "errors" (Full.fields entryB) = Some (VArr [picked systemError]) /\
    lookup "error_count" (Full.fields entryA) = Some (VNum (Int 1)).
Proof.
  eexists.
  destruct (proj1 (C3_revisions_agree_up_to_errors Z_to_string)
              0%Z "error" [systemError] _ eq_refl)
    as (entryB & rs & HB & _ & _ & _ & _ & Herr).
  exists entryB. split; [reflexivity|]. split; [exact HB|].
  destruct Herr as (HE & _ & _ & _ & HC & _); [discriminate|].
  split; [exact HE|exact HC].
Defined.

(** Two objects with the same key: the later one wins. *)
Lemma C4_context_merge_below_proto_witness :
  exists entry,
    Full.buildEntry Z_to_string 0%Z "warn"
      [VObject [("a", VNum (Int 1))]; VStr "x"; VObject [("a", VNum (Int 2))]]
      = Normal entry /\
    lookup "a" (Full.fields entry) = Some (VNum (Int 2)).
Proof.
  eexists. split; [reflexivity|].
  destruct (C4_context_merge_below_proto Z_to_string 0%Z "warn"
              [VObject [("a", VNum (Int 1))]; VStr "x";
               VObject [("a", VNum (Int 2))]] _ eq_refl)
    as (_ & Hlast & _).
  apply (Hlast [VObject [("a", VNum (Int 1))]]
               (VObject [("a", VNum (Int 2))]) [] "a" (VNum (Int 2))).
  - reflexivity.
  - reflexivity.
  - intros o' [].
  - discriminate.
  - vm_compute. intros [H|[]]. discriminate H.
Defined.

(** The fragments of [info('test', null, undefined)]. *)
Lemma C5_message_text_witness :
  Forall (fun a => isPrimitive a = true) [VStr "test"; VNull; VUndefined] /\
  Full.serializeArgs Z_to_string [VStr "test"; VNull; VUndefined]
    = Normal "test null undefined".
Proof.
  assert (H : Forall (fun a => isPrimitive a = true)
                     [VStr "test"; VNull; VUndefined])
    by (repeat (constructor; [reflexivity|]); constructor).
  split; [exact H|].
  exact (proj1 (C5_message_text Z_to_string
                  [VStr "test"; VNull; VUndefined] H)).
Defined.

(** A malformed error-like object whose message can be coerced. *)
Lemma C6_mapError_raises_on_own_toString_witness :
  isNullish (VObject [("name", VNum (Int 5)); ("message", VNull);
                      ("stack", VBool true); ("code", VStr "ENOENT")])
    = false /\
  exists r,
    Full.mapError Z_to_string
      (VObject [("name", VNum (Int 5)); ("message", VNull);
                ("stack", VBool true); ("code", VStr "ENOENT")])
      = Normal r /\
    Get r "name" = Some (VStr "Error") /\
    Get r "stack" = Some VUndefined /\
    Get r "code" = Some (VStr "ENOENT").
Proof.
  split; [reflexivity|]. eexists. split; [reflexivity|].
  destruct (proj2 (proj2 (proj2
              (C6_mapError_raises_on_own_toString Z_to_string)))
              (VObject [("name", VNum (Int 5)); ("message", VNull);
                        ("stack", VBool true); ("code", VStr "ENOENT")])
              eq_refl)
    as (_ & Hr).
  destruct (Hr _ eq_refl) as (Hn & _ & Hs & Hc & _).
  repeat split; assumption.
Defined.

(* ================================================================== *)
(** * Further properties of the program with the coercions that raise *)
(* ================================================================== *)

(** ** The level check *)

(** X3. No threshold holds back an [error] call: whatever the logger
    and the arguments, the call writes one line with [console.error] or
    raises, and never returns with the console as it was.  A logger at
    [trace] holds back no call at all. *)
Theorem X3_error_is_never_gated :
  forall numberText this now args out,
    ((exists line,
        Full.error numberText this now args out
        = Normal (out ++ [(console_error, line)])%list) \/
     (exists e, Full.error numberText this now args out = Throw e)) /\
    Full.error numberText this now args out <> Normal out /\
    (StandardLogger.logLevel this = "trace" ->
     forall L m, Full.method numberText L = Some m ->
                 m this now args out <> Normal out).
Proof.
  intros numberText this now args out.
  assert (Hne : forall line, Normal (out ++ [line])%list <> Normal out).
  { intros line H. injection H as H.
    apply (f_equal (@List.length _)) in H. rewrite length_app in H.
    simpl in H. lia. }
  unfold Full.error. rewrite Full_logAt_passed by apply error_passes.
  split; [|split].
  - destruct (Full.buildEntry numberText now "error" args) as [entry|e].
    + left. now eexists.
    + right. now eexists.
  - destruct (Full.buildEntry numberText now "error" args) as [entry|e];
      [apply Hne|discriminate].
  - intros HT L m Hm.
    destruct (Full_method_logAt numberText L m Hm) as [HL ->].
    rewrite HT, Full_logAt_passed.
    + destruct (Full.buildEntry numberText now L args) as [entry|e];
        [apply Hne|discriminate].
    + simpl in HL.
      repeat (destruct HL as [<-|HL]; [reflexivity|]). destruct HL.
Qed.

Lemma X3_error_is_never_gated_witness :
  StandardLogger.logLevel (StandardLogger.constructor (Some "trace"))
    = "trace" /\
  Full.debug Z_to_string (StandardLogger.constructor (Some "trace")) 0%Z
    [VStr "x"] [] <> Normal [].
Proof.
  split; [reflexivity|].
  exact (proj2 (proj2 (X3_error_is_never_gated Z_to_string
                         (StandardLogger.constructor (Some "trace")) 0%Z
                         [VStr "x"] []))
           eq_refl "debug" (Full.debug Z_to_string) eq_refl).
Defined.

Lemma Full_method_defined numberText L :
  In L LogLevels ->
  exists m, Full.method numberText L = Some m /\
            forall this now args out,
              m this now args out =
              Full.logAt numberText now (StandardLogger.logLevel this) L
                args out.
Proof.
  simpl. intros H.
  repeat (destruct H as [<-|H]; [eexists; split; reflexivity|]). destruct H.
Qed.

(** X5. A run of per-level calls stops at the first call that raises.
    When it returns, the console holds what it held before and then, in
    order, one line for each call that passes the level check and
    nothing for the others, each line with the console method of its
    call.  A run whose arguments are all [undefined], [null], booleans,
    numbers and strings returns. *)
Theorem X5_run_of_calls :
  forall numberText this calls,
    Forall (fun c => In (callLevel c) LogLevels) calls ->
    (forall out out',
       Full.callEach numberText this calls out = Normal out' ->
       exists lines,
         out' = (out ++ lines)%list /\
         map fst lines =
           map (fun c => sinkOf (callLevel c))
               (filter (passes (StandardLogger.logLevel this)) calls)) /\
    (Forall (fun c => Forall (fun a => isPrimitive a = true) (snd (snd c)))
            calls ->
     forall out, exists out',
       Full.callEach numberText this calls out = Normal out').
Proof.
  intros numberText this calls H.
  induction H as [|[L [now args]] rest HL _ [IH1 IH2]].
  - split.
    + intros out out' [= <-]. exists []. now rewrite app_nil_r.
    + intros _ out. now exists out.
  - unfold callLevel in HL. cbn [fst] in HL.
    destruct (Full_method_defined numberText L HL) as (m & Hm & Hcall).
    split.
    + intros out out'. cbn [Full.callEach]. rewrite Hm, Hcall. cbn [filter].
      change (passes (StandardLogger.logLevel this) (L, (now, args)))
        with (negb (gt (lookup L LEVELS)
                       (lookup (StandardLogger.logLevel this) LEVELS))).
      destruct (gt (lookup L LEVELS)
                   (lookup (StandardLogger.logLevel this) LEVELS)) eqn:E.
      * rewrite Full_logAt_gated by exact E. cbn [bind negb]. apply IH1.
      * rewrite Full_logAt_passed by exact E.
        destruct (Full.buildEntry numberText now L args) as [entry|e];
          cbn [bind negb]; [|intros Hx; discriminate Hx].
        intros Hrun. destruct (IH1 _ _ Hrun) as (lines & -> & Hl).
        eexists (_ :: lines). split; [now rewrite <- app_assoc|].
        cbn [map fst]. now rewrite Hl.
    + intros Hargs out. inversion Hargs as [|c l Ha Hrest]; subst.
      cbn [snd] in Ha. cbn [Full.callEach]. rewrite Hm, Hcall.
      destruct (gt (lookup L LEVELS)
                   (lookup (StandardLogger.logLevel this) LEVELS)) eqn:E.
      * rewrite Full_logAt_gated by exact E. cbn [bind]. now apply IH2.
      * rewrite Full_logAt_passed by exact E.
        rewrite Full_buildEntry_primitives by exact Ha. cbn [bind].
        now apply IH2.
Qed.

(** The five calls of the filtering test, on a logger at [info]. *)
Lemma X5_run_of_calls_witness :
  exists lines,
    Full.callEach Z_to_string (StandardLogger.constructor (Some "info"))
      [("error", (0%Z, [VStr "m"])); ("warn", (1%Z, [VStr "m"]));
       ("info", (2%Z, [VStr "m"])); ("debug", (3%Z, [VStr "m"]));
       ("trace", (4%Z, [VStr "m"]))] [] = Normal lines /\
    map fst lines = [console_error; console_warn; console_info].
Proof.
  eexists. split; [reflexivity|].
  destruct (proj1 (X5_run_of_calls Z_to_string
              (StandardLogger.constructor (Some "info"))
              [("error", (0%Z, [VStr "m"])); ("warn", (1%Z, [VStr "m"]));
               ("info", (2%Z, [VStr "m"])); ("debug", (3%Z, [VStr "m"]));
               ("trace", (4%Z, [VStr "m"]))]
              ltac:(repeat constructor; simpl; tauto)) [] _ eq_refl)
    as (lines & E & Hl).
  simpl in E. subst lines. exact Hl.
Defined.

(* ------------------------------------------------------------------ *)
(** ** [serializeArgs] ([log.ts], lines 66 to 79) *)

Lemma Full_serializeArg_serialized numberText a :
  Full.serializeArg numberText a = Normal (Full.serialized numberText a).
Proof.
  unfold Full.serializeArg, Full.serialized, isString.
  destruct (typeTag_eqb (typeof a) TString); [reflexivity|].
  destruct (instanceofError a) eqn:E; [|now destruct (isUndefined a)].
  assert (Hn : isNullish a = false) by (destruct a; try discriminate E;
                                        reflexivity).
  rewrite !GetV_read by exact Hn. cbn [bind].
  now destruct (truthy (read a "stack")).
Qed.

Lemma Full_serializeArgs_serialized numberText args :
  Full.serializeArgs numberText args =
  Full.join numberText " " (map (Full.serialized numberText) args).
Proof.
  unfold Full.serializeArgs.
  rewrite (mapM_Normal (Full.serializeArg numberText)
             (Full.serialized numberText)); [reflexivity|].
  apply Forall_forall. intros a _. apply Full_serializeArg_serialized.
Qed.

(** X8. [serializeArgs] gives the empty string on no argument and, on
    two lists of arguments put end to end, the two texts with one space
    between them; when it raises on one of the two lists it raises on
    the whole.  An [Error] instance gives its stack when that is truthy
    and its message otherwise, and the call raises when that stack is an
    object with a [toString] property of its own. *)
Theorem X8_serializeArgs_composes :
  forall numberText,
    Full.serializeArgs numberText [] = Normal "" /\
    (forall args1 args2 text1 text2,
       args1 <> [] -> args2 <> [] ->
       Full.serializeArgs numberText args1 = Normal text1 ->
       Full.serializeArgs numberText args2 = Normal text2 ->
       Full.serializeArgs numberText (args1 ++ args2)
       = Normal (text1 ++ " " ++ text2)) /\
    (forall args1 args2 e,
       Full.serializeArgs numberText args1 = Throw e \/
       Full.serializeArgs numberText args2 = Throw e ->
       exists e', Full.serializeArgs numberText (args1 ++ args2) = Throw e') /\
    (forall e stack,
       instanceofError e = true -> read e "stack" = VStr stack ->
       stack <> "" -> Full.serializeArgs numberText [e] = Normal stack) /\
    (forall e message,
       instanceofError e = true -> truthy (read e "stack") = false ->
       read e "message" = VStr message ->
       Full.serializeArgs numberText [e] = Normal message) /\
    Full.serializeArgs numberText
      [VObj (ErrorPrototype "Error")
         [("stack", (false, VObject [("toString", VNull)]))]]
    = Throw TypeError.
Proof.
  intros numberText.
  split; [reflexivity|]. split; [|split; [|split; [|split]]].
  - intros args1 args2 text1 text2 H1 H2.
    rewrite !Full_serializeArgs_serialized, map_app. unfold Full.join.
    rewrite mapM_app.
    destruct (mapM _ (map (Full.serialized numberText) args1)) as [t1|x] eqn:E1;
      [|intros Hx; discriminate Hx].
    destruct (mapM _ (map (Full.serialized numberText) args2)) as [t2|x] eqn:E2;
      [|intros _ Hx; discriminate Hx].
    cbn [bind]. intros [= <-] [= <-]. f_equal.
    apply String_concat_app.
    + apply mapM_length in E1. rewrite length_map in E1.
      destruct args1; [congruence|]. destruct t1; [discriminate E1|].
      discriminate.
    + apply mapM_length in E2. rewrite length_map in E2.
      destruct args2; [congruence|]. destruct t2; [discriminate E2|].
      discriminate.
  - intros args1 args2 e.
    rewrite !Full_serializeArgs_serialized, map_app. unfold Full.join.
    rewrite mapM_app.
    destruct (mapM _ (map (Full.serialized numberText) args1)) as [t1|x];
      cbn [bind]; [|intros _; now eexists].
    destruct (mapM _ (map (Full.serialized numberText) args2)) as [t2|x];
      cbn [bind]; [|intros _; now eexists].
    intros [H|H]; discriminate H.
  - intros e stack He Hs Hne. rewrite Full_serializeArgs_serialized.
    cbn [map]. unfold Full.serialized, isString. rewrite He, Hs.
    destruct e; try discriminate He. cbn.
    destruct (String.eqb_spec stack ""); [contradiction|reflexivity].
  - intros e message He Hs Hm. rewrite Full_serializeArgs_serialized.
    cbn [map]. unfold Full.serialized, isString. rewrite He, Hs, Hm.
    destruct e; try discriminate He. reflexivity.
  - reflexivity.
Qed.

Lemma X8_serializeArgs_composes_witness :
  Full.serializeArgs Z_to_string ([VStr "a"; VNum (Int 1)] ++ [VNull])%list
  = Normal ("a 1" ++ " " ++ "null") /\
  Full.serializeArgs Z_to_string [newError "boom" "Error: boom"]
  = Normal "Error: boom".
Proof.
  destruct (X8_serializeArgs_composes Z_to_string)
    as (_ & Happ & _ & Hstack & _).
  split.
  - apply Happ; [discriminate|discriminate|reflexivity|reflexivity].
  - apply Hstack; [reflexivity|reflexivity|discriminate].
Defined.

(* ------------------------------------------------------------------ *)
(** ** [mapError] ([log.ts], lines 94 to 103) *)

(** X9. Normalizing is idempotent where it returns: the record
    [mapError] returns is error-like, its name and message are strings,
    and [mapError] maps it to itself. *)
Theorem X9_mapError_idempotent :
  forall numberText e r,
    Full.mapError numberText e = Normal r ->
    Full.mapError numberText r = Normal r /\
    isError r = true /\
    isString (read r "name") = true /\
    isString (read r "message") = true.
Proof.
  intros numberText e r Hr.
  assert (He : isNullish e = false).
  { destruct e; try reflexivity; discriminate Hr. }
  rewrite Full_mapError in Hr by exact He.
  set (name := if isString (read e "name") then read e "name"
               else VStr "Error") in *.
  set (stack := if isString (read e "stack") then read e "stack"
                else VUndefined) in *.
  assert (Hname : isString name = true)
    by (subst name; now destruct (isString (read e "name")) eqn:E).
  assert (Hstack : (if isString stack then stack else VUndefined) = stack).
  { subst stack. destruct (isString (read e "stack")) eqn:E.
    - now rewrite E.
    - reflexivity. }
  assert (Hmsg : exists message,
            (if isString (read e "message") then Normal (read e "message")
             else s <- Full.ToString numberText (orEmpty (read e "message")) ;;
                  Normal (VStr s)) = Normal message /\
            isString message = true).
  { destruct (isString (read e "message")) eqn:E; [now eexists|].
    destruct (Full.ToString numberText (orEmpty (read e "message")))
      as [s|x]; [|discriminate Hr].
    now eexists. }
  destruct Hmsg as (message & Em & Hmessage). rewrite Em in Hr.
  cbn [bind] in Hr. injection Hr as <-.
  rewrite Full_mapError by reflexivity.
  destruct (isUndefined (read e "code")) eqn:Ecode.
  - cbn -[isString]. rewrite Hname, Hmessage, Hstack.
    repeat split; reflexivity.
  - cbn -[isString]. rewrite Hname, Hmessage, Hstack, Ecode.
    repeat split; reflexivity.
Qed.

Lemma X9_mapError_idempotent_witness :
  exists r,
    Full.mapError Z_to_string
      (VObject [("name", VNull); ("message", VNum (Int 7))]) = Normal r /\
    Full.mapError Z_to_string r = Normal r.
Proof.
  eexists. split; [reflexivity|].
  exact (proj1 (X9_mapError_idempotent Z_to_string
                  (VObject [("name", VNull); ("message", VNum (Int 7))])
                  _ eq_refl)).
Defined.

(* ------------------------------------------------------------------ *)
(** ** The entry ([log.ts], lines 109 to 136) *)

Lemma In_keys_put k k' v o :
  k <> "__proto__" ->
  In k (keys (Full.fields (Full.put k' v o)))
  <-> k = k' \/ In k (keys (Full.fields o)).
Proof.
  intros Hk. unfold Full.put.
  destruct (String.eqb_spec k' "__proto__") as [->|ne]; cbn [andb].
  - destruct (_ && _).
    + rewrite fields_setPrototypeOf. intuition congruence.
    + apply In_keys_set.
  - apply In_keys_set.
Qed.

Lemma In_keys_puts (writes : list (string * value)) o k :
  k <> "__proto__" ->
  In k (keys (Full.fields
    (fold_left (fun o kv => Full.put (fst kv) (snd kv) o) writes o)))
  <-> In k (keys (Full.fields o)) \/ In k (keys writes).
Proof.
  intros Hk. revert o. induction writes as [|[k' v] t IH]; intros o; simpl.
  - tauto.
  - rewrite IH, In_keys_put by exact Hk. unfold keys. simpl.
    intuition congruence.
Qed.

Lemma In_keys_Full_mergeObjects objs o k :
  k <> "__proto__" ->
  In k (keys (Full.fields (Full.mergeObjects objs o)))
  <-> In k (keys (Full.fields o)) \/ In k (keys (contextFields objs)).
Proof.
  intros Hk. revert o. induction objs as [|a t IH]; intros o.
  - simpl. tauto.
  - change (Full.mergeObjects (a :: t) o)
      with (Full.mergeObjects t (Full.Object_assign o a)).
    change (contextFields (a :: t))
      with (ownEnumerable a ++ contextFields t)%list.
    rewrite IH. unfold Full.Object_assign. rewrite In_keys_puts by exact Hk.
    unfold keys. rewrite map_app, in_app_iff. tauto.
Qed.

(** X12. The keys of an entry, [__proto__] apart, are exactly
    [timestamp], [level], the keys of the enumerable properties of the
    object arguments, [message] when the rendered message is not empty,
    [error] and [error_count] when there is an error-like argument, and
    [errors] when there is more than one: [logAt] adds no other field
    and removes none. *)
Theorem X12_entry_keys :
  forall numberText now level args entry,
    Full.buildEntry numberText now level args = Normal entry ->
    forall k,
      k <> "__proto__" ->
      (In k (keys (Full.fields entry)) <->
       k = "timestamp" \/ k = "level" \/
       In k (keys (contextFields (filter isObjectArg args))) \/
       (k = "message" /\
        Full.renderedMessage numberText (filter isMessageArg args) <> "") \/
       ((k = "error" \/ k = "error_count") /\ filter isError args <> []) \/
       (k = "errors" /\ (1 < List.length (filter isError args))%nat)).
Proof.
  intros numberText now level args entry HB k Hk.
  rewrite Full_buildEntry in HB.
  destruct (mapM (Full.mapError numberText) (filter isError args))
    as [rs|x] eqn:EM; [|discriminate HB].
  cbn [bind] in HB. injection HB as <-.
  apply mapM_length in EM.
  assert (Hmerged : In k (keys (Full.fields (Full.mergedEntry now level args)))
            <-> k = "timestamp" \/ k = "level" \/
                In k (keys (contextFields (filter isObjectArg args)))).
  { unfold Full.mergedEntry. rewrite In_keys_Full_mergeObjects by exact Hk.
    simpl. intuition congruence. }
  assert (Hmsg : In k (keys (Full.fields
                   (Full.entryBeforeErrors numberText now level args))) <->
            In k (keys (Full.fields (Full.mergedEntry now level args))) \/
            (k = "message" /\
             Full.renderedMessage numberText (filter isMessageArg args)
             <> "")).
  { unfold Full.entryBeforeErrors, Full.messageStep. cbv zeta.
    destruct (String.eqb_spec
                (Full.renderedMessage numberText (filter isMessageArg args)) "")
      as [E|E].
    - rewrite E. intuition congruence.
    - unfold Full.store. cbn [Full.fields]. rewrite In_keys_set.
      intuition congruence. }
  unfold Full.errorFields.
  destruct (filter isError args) as [|e [|e' t]];
    destruct rs as [|r [|r' rs]]; try discriminate EM;
    unfold Full.store; cbn [Full.fields].
  - rewrite Hmsg, Hmerged. simpl. intuition (try congruence; try lia).
  - rewrite !In_keys_set, Hmsg, Hmerged. simpl.
    intuition (try congruence; try lia).
  - rewrite !In_keys_set, Hmsg, Hmerged. simpl.
    intuition (try congruence; try lia).
Qed.

Lemma X12_entry_keys_witness :
  In "userId"
     (keys (Full.fields
        (Full.entryBeforeErrors Z_to_string 0%Z "info"
           [VObject [("userId", VNum (Int 7))]]))).
Proof.
  apply (proj2 (X12_entry_keys Z_to_string 0%Z "info"
                  [VObject [("userId", VNum (Int 7))]] _ eq_refl
                  "userId" ltac:(discriminate))).
  right. right. left. simpl. tauto.
Defined.

(* ------------------------------------------------------------------ *)
(** ** The two revisions of [logAt] as a whole *)

(** X14. The two revisions hold back the same calls, and on a call
    without error-like arguments they complete alike, with the same line
    or by raising alike.  With an error-like argument they can part: on
    [{name: 'E', message: {toString: null}}] the earlier revision, which
    coerces nothing, writes a line and the current one raises. *)
Theorem X14_revisions_agree :
  forall numberText now cur L args out,
    (gt (lookup L LEVELS) (lookup cur LEVELS) = true ->
     Full.logAt numberText now cur L args out = Normal out /\
     Full.part001_logAt numberText now cur L args out = Normal out) /\
    (filter isError args = [] ->
     Full.logAt numberText now cur L args out
     = Full.part001_logAt numberText now cur L args out) /\
    (exists line,
       Full.part001_logAt numberText now "warn" "error" [malformed] out
       = Normal (out ++ [(console_error, line)])%list) /\
    Full.logAt numberText now "warn" "error" [malformed] out = Throw TypeError.
Proof.
  intros numberText now cur L args out.
  split; [|split; [|split]].
  - intros E. split; [now apply Full_logAt_gated|].
    unfold Full.part001_logAt. now rewrite E.
  - intros Hes. unfold Full.logAt, Full.part001_logAt.
    destruct (gt _ _); [reflexivity|].
    rewrite Full_buildEntry, Full_part001_buildEntry, Hes. reflexivity.
  - unfold Full.part001_logAt. cbn [lookup LEVELS gt String.eqb Ascii.eqb
      Bool.eqb Z.ltb Z.compare].
    rewrite Full_part001_buildEntry. cbn [bind]. now eexists.
  - reflexivity.
Qed.

Lemma X14_revisions_agree_witness :
  Full.logAt Z_to_string 0%Z "warn" "info" [VStr "x"] []
  = Full.part001_logAt Z_to_string 0%Z "warn" "info" [VStr "x"] [].
Proof.
  exact (proj1 (proj2 (X14_revisions_agree Z_to_string 0%Z "warn" "info"
                         [VStr "x"] [])) eq_refl).
Defined.

(* ------------------------------------------------------------------ *)
(** ** Error-like objects among the arguments
       ([log.ts], lines 81 to 86 and 116 to 136) *)

(** X16. The properties of an error-like argument are not merged into
    the entry: when a call whose only argument is error-like builds an
    entry, the entry has the keys [timestamp], [level], [error] and
    [error_count] and no other, and the record under [error], the
    normalized argument, has no enumerable property but [name],
    [message], [stack] and [code]. *)
Theorem X16_error_like_properties_are_dropped :
  forall numberText now level e entry,
    isError e = true ->
    Full.buildEntry numberText now level [e] = Normal entry ->
    exists r,
      Full.mapError numberText e = Normal r /\
      keys (Full.fields entry)
      = ["timestamp"; "level"; "error"; "error_count"] /\
      lookup "error" (Full.fields entry) = Some r /\
      lookup "error_count" (Full.fields entry) = Some (VNum (Int 1)) /\
      forall k, In k (keys (ownEnumerable r)) ->
                In k ["name"; "message"; "stack"; "code"].
Proof.
  intros numberText now level e entry He HB.
  assert (Ho : isObjectArg e = false) by (by_group e; congruence).
  assert (Hm : isMessageArg e = false) by (by_group e; congruence).
  rewrite Full_buildEntry in HB. cbn [filter] in HB. rewrite He in HB.
  cbn [mapM] in HB.
  destruct (Full.mapError numberText e) as [r|x] eqn:Er; [|discriminate HB].
  cbn [bind] in HB. injection HB as <-. exists r.
  split; [reflexivity|].
  unfold Full.entryBeforeErrors, Full.mergedEntry. cbn [filter].
  rewrite Ho, Hm.
  split; [reflexivity|]. split; [reflexivity|]. split; [reflexivity|].
  rewrite Full_mapError in Er by now apply isError_not_nullish.
  destruct (if isString (read e "message") then _ else _) as [text|x];
    [|discriminate Er].
  cbn [bind] in Er. injection Er as <-.
  intros k. destruct (isUndefined (read e "code")); cbn; tauto.
Qed.

Lemma X16_error_like_properties_are_dropped_witness :
  exists entry,
    Full.buildEntry Z_to_string 0%Z "error"
      [VObject [("name", VStr "E"); ("message", VStr "m");
                ("userId", VNum (Int 7))]] = Normal entry /\
    lookup "userId" (Full.fields entry) = None.
Proof.
  eexists. split; [reflexivity|].
  destruct (X16_error_like_properties_are_dropped Z_to_string 0%Z "error"
              (VObject [("name", VStr "E"); ("message", VStr "m");
                        ("userId", VNum (Int 7))]) _ eq_refl eq_refl)
    as (r & _ & Hk & _).
  apply lookup_None_iff. rewrite Hk. simpl. intuition discriminate.
Defined.

(* ================================================================== *)
(** * Plain data: where no coercion raises

    On values none of whose objects owns a [toString] property, and on
    object arguments without an enumerable [__proto__] property, the
    program with the coercions that raise, taken with the decimal text of
    integers, is the program of the first part. *)
(* ================================================================== *)

Lemma forallb_Forall {A} (p : A -> bool) l :
  forallb p l = true -> Forall (fun x => p x = true) l.
Proof.
  intros H. apply Forall_forall. now apply forallb_forall.
Qed.

Lemma lookup_map_values {A B C} (key : A -> string) (f : A -> B) (g : A -> C)
    (h : B -> C) (l : list A) k :
  Forall (fun p => g p = h (f p)) l ->
  lookup k (map (fun p => (key p, g p)) l) =
  option_map h (lookup k (map (fun p => (key p, f p)) l)).
Proof.
  induction 1 as [|p t Hp _ IH]; simpl; [reflexivity|].
  rewrite IH.
  destruct (lookup k (map (fun p => (key p, f p)) t)); simpl; [reflexivity|].
  destruct (String.eqb (key p) k); simpl; [now rewrite Hp|reflexivity].
Qed.

Lemma Full_ToString_plain v :
  plain v = true -> Full.ToString Z_to_string v = Normal (ToString v).
Proof.
  induction v as [| |b|n|s|l IH|proto props IH] using value_ind;
    intros Hp; try reflexivity.
  - now destruct b.
  - cbn [Full.ToString ToString]. cbn [plain] in Hp.
    apply forallb_Forall in Hp.
    rewrite (mapM_Normal _ (fun e => if isNullish e then "" else ToString e)).
    + reflexivity.
    + clear -IH Hp. induction IH as [|e t He _ IHt]; [constructor|].
      inversion Hp as [|? ? Hpe Hpt]; subst. constructor; [|now apply IHt].
      destruct (isNullish e); [reflexivity|now apply He].
  - cbn [plain] in Hp. apply andb_true_iff in Hp. destruct Hp as [Hts Hp].
    apply negb_true_iff in Hts. apply forallb_Forall in Hp.
    cbn [Full.ToString ToString]. rewrite Hts.
    destruct proto as [|n]; [reflexivity|]. cbv zeta.
    assert (HF : Forall (fun p =>
              (if isUndefined (pvalue p) then None
               else Some (Full.ToString Z_to_string (pvalue p)))
              = option_map Normal
                  (if isUndefined (pvalue p) then None
                   else Some (ToString (pvalue p)))) props).
    { clear -IH Hp. induction IH as [|p t He _ IHt]; [constructor|].
      inversion Hp as [|? ? Hpe Hpt]; subst. constructor; [|now apply IHt].
      destruct (isUndefined (pvalue p)); [reflexivity|].
      simpl. now rewrite He. }
    rewrite !(lookup_map_values pkey _ _ (option_map Normal) props _ HF).
    destruct (lookup "name" _) as [[x|]|];
      destruct (lookup "message" _) as [[y|]|]; reflexivity.
Qed.

Lemma Full_render_decimal j : Full.render Z_to_string j = render j.
Proof.
  reflexivity.
Qed.

Lemma Full_JSON_stringify_decimal v :
  Full.JSON_stringify Z_to_string v = JSON_stringify v.
Proof.
  unfold Full.JSON_stringify, JSON_stringify.
  destruct (toJSON v); simpl; [now rewrite Full_render_decimal|reflexivity].
Qed.

Lemma Full_renderedMessage_decimal l :
  Forall (fun a => isPrimitive a = true) l ->
  Full.renderedMessage Z_to_string l = renderedMessage l.
Proof.
  intros H. unfold Full.renderedMessage, renderedMessage. f_equal.
  apply map_ext_Forall. eapply Forall_impl; [|exact H].
  intros a Ha. destruct a as [| |[]|[]|s|l'|p ps]; try discriminate Ha;
    reflexivity.
Qed.

Lemma In_indexed {V} (l : list V) n k x : In (k, x) (indexed n l) -> In x l.
Proof.
  revert n. induction l as [|y t IH]; intros n; simpl; [tauto|].
  intros [[= _ <-]|H]; [now left|]. right. now apply (IH (S n)).
Qed.

(** The properties of a plain value are plain. *)
Lemma plain_read v k : plain v = true -> plain (read v k) = true.
Proof.
  unfold read, Get. destruct v as [| |b|n|s|l|proto props]; try reflexivity.
  - cbn [plain]. intros H.
    destruct (lookup k (indexed 0 l)) as [x|] eqn:E; [|reflexivity].
    apply lookup_Some_In, In_indexed in E.
    rewrite forallb_forall in H. now apply H.
  - cbn [plain]. intros H. apply andb_true_iff in H. destruct H as [_ H].
    destruct (lookup k (ownProps props)) as [x|] eqn:E.
    + apply lookup_Some_In in E. unfold ownProps in E.
      apply in_map_iff in E. destruct E as (p & [= _ <-] & Hin).
      rewrite forallb_forall in H. now apply H.
    + destruct proto as [|n]; [reflexivity|]. simpl.
      destruct (String.eqb k "name"); [reflexivity|].
      now destruct (String.eqb k "message").
Qed.

Lemma Full_mapError_plain e :
  isNullish e = false -> plain e = true ->
  Full.mapError Z_to_string e = Normal (normalized e).
Proof.
  intros He Hp. rewrite Full_mapError by exact He. unfold normalized.
  cbv zeta. destruct (isString (read e "message")); [reflexivity|].
  rewrite Full_ToString_plain; [reflexivity|].
  unfold orEmpty. destruct (isNullish (read e "message")); [reflexivity|].
  now apply plain_read.
Qed.

Lemma puts_sets (writes : list (string * value)) o :
  ~ In "__proto__" (keys writes) ->
  fold_left (fun o kv => Full.put (fst kv) (snd kv) o) writes o =
  {| Full.fields :=
       fold_left (fun o kv => set (fst kv) (snd kv) o) writes (Full.fields o);
     Full.proto := Full.proto o |}.
Proof.
  revert o. induction writes as [|[k v] t IH]; intros o H.
  - now destruct o.
  - cbn [fold_left fst snd]. rewrite IH.
    + rewrite put_store; [reflexivity|].
      intros ->. apply H. now left.
    + intros Hin. apply H. now right.
Qed.

Lemma Full_Object_assign_protoFree o a :
  protoFree a = true ->
  Full.Object_assign o a =
  {| Full.fields := Object_assign (Full.fields o) a;
     Full.proto := Full.proto o |}.
Proof.
  intros H. apply puts_sets. apply lookup_None_iff.
  unfold protoFree, hasOwnProperty in H.
  now destruct (lookup "__proto__" (ownEnumerable a)).
Qed.

Lemma Full_mergeObjects_protoFree objs o :
  Forall (fun a => protoFree a = true) objs ->
  Full.mergeObjects objs o =
  {| Full.fields := mergeObjects objs (Full.fields o);
     Full.proto := Full.proto o |}.
Proof.
  intros H. revert o. induction H as [|a t Ha _ IH]; intros o.
  - now destruct o.
  - change (Full.mergeObjects (a :: t) o)
      with (Full.mergeObjects t (Full.Object_assign o a)).
    rewrite IH, Full_Object_assign_protoFree by exact Ha. reflexivity.
Qed.

Lemma Full_entryBeforeErrors_plain now level args :
  Forall (fun a => protoFree a = true) (filter isObjectArg args) ->
  Full.entryBeforeErrors Z_to_string now level args =
  {| Full.fields := entryBeforeErrors now level args;
     Full.proto := Full.ObjectProto |}.
Proof.
  intros H. unfold Full.entryBeforeErrors, Full.mergedEntry,
    entryBeforeErrors, mergedEntry.
  rewrite Full_mergeObjects_protoFree by exact H.
  unfold Full.messageStep, messageStep.
  rewrite Full_renderedMessage_decimal by apply Forall_isPrimitive_filter.
  cbv zeta. now destruct (String.eqb _ "").
Qed.

Lemma Full_buildEntry_plain now level args :
  Forall (fun a => plain a = true) (filter isError args) ->
  Forall (fun a => protoFree a = true) (filter isObjectArg args) ->
  Full.buildEntry Z_to_string now level args =
  Normal {| Full.fields := entryOf now level args;
            Full.proto := Full.ObjectProto |}.
Proof.
  intros HE HO. rewrite Full_buildEntry.
  rewrite (mapM_Normal _ normalized).
  2:{ pose proof (Forall_filter isError args) as HF.
      revert HF. induction HE as [|e t He _ IH]; intros HF; [constructor|].
      inversion HF as [|? ? H1 H2]; subst. constructor; [|now apply IH].
      apply Full_mapError_plain; [|exact He].
      now apply isError_not_nullish. }
  cbn [bind]. rewrite Full_entryBeforeErrors_plain by exact HO.
  unfold entryOf. fold (entryBeforeErrors now level args).
  unfold Full.errorFields, errorStep.
  destruct (filter isError args) as [|e [|e' t]]; [reflexivity..|].
  cbn [map]. unfold lengthOf. cbn [List.length]. now rewrite length_map.
Qed.

Lemma Full_part001_buildEntry_plain now level args :
  Forall (fun a => protoFree a = true) (filter isObjectArg args) ->
  Full.part001_buildEntry Z_to_string now level args =
  Normal {| Full.fields := part001_entryOf now level args;
            Full.proto := Full.ObjectProto |}.
Proof.
  intros HO. rewrite Full_part001_buildEntry.
  rewrite Full_entryBeforeErrors_plain by exact HO.
  unfold part001_entryOf.
  destruct (filter isError args) as [|e t]; reflexivity.
Qed.


